(** * A model of [main.py]: credential collection, the per-key sandbox
    lifecycle and the staggered launch loop.

    The program talks to three things it does not define: the sandbox
    provider (session creation, command execution), the random number
    generator and the clock ([asyncio.sleep]).  They are modelled as a
    [World] of answer streams; what the program prints, sleeps and calls is
    recorded in a trace.  Python [int] is [Z]; a Python [str] is a [string]
    whose characters are read as the code points 0..255. *)

From Stdlib Require Import ZArith Ascii String List Lia.
From stdpp Require Import base list gmap strings.

#[local] Set Warnings "-clear-no-such-hyp".

Local Open Scope Z_scope.

(* ===================================================================== *)
(** ** Text: [str.lower], [in], [str.strip], slicing                      *)
(* ===================================================================== *)

Module Text.

(** [c.lower()] for one code point below 256: A..Z and the accented
    capitals U+00C0..U+00DE (the multiplication sign U+00D7 apart) move up
    by 32, everything else is unchanged. *)
Definition lower_char (c : ascii) : ascii :=
  let n := N_of_ascii c in
  if ((65 <=? n) && (n <=? 90))%N then ascii_of_N (n + 32)
  else if ((192 <=? n) && (n <=? 222) && negb (n =? 215))%N
       then ascii_of_N (n + 32)
       else c.

(** [s.lower()] *)
Fixpoint lower (s : string) : string :=
  match s with
  | EmptyString => EmptyString
  | String c s' => String (lower_char c) (lower s')
  end.

(** [needle in hay]: [needle] occurs in [hay] as a contiguous block. *)
Fixpoint str_in (needle hay : string) : bool :=
  String.prefix needle hay ||
  match hay with
  | EmptyString => false
  | String _ hay' => str_in needle hay'
  end.

(** [c.isspace()] for one code point below 256: tab, line feed, vertical
    tab, form feed, carriage return, the four separators U+001C..U+001F,
    space, next-line U+0085 and no-break space U+00A0. *)
Definition isspace (c : ascii) : bool :=
  let n := N_of_ascii c in
  (((9 <=? n) && (n <=? 13)) || ((28 <=? n) && (n <=? 32))
   || (n =? 133) || (n =? 160))%N.

Fixpoint lstrip (s : string) : string :=
  match s with
  | EmptyString => EmptyString
  | String c s' => if isspace c then lstrip s' else s
  end.

Fixpoint rstrip (s : string) : string :=
  match s with
  | EmptyString => EmptyString
  | String c s' =>
      match rstrip s' with
      | EmptyString => if isspace c then EmptyString else String c EmptyString
      | r => String c r
      end
  end.

(** [s.strip()] *)
Definition strip (s : string) : string := rstrip (lstrip s).

(** Truth value of a [str]: the empty string is false. *)
Definition truthy (s : string) : bool :=
  match s with EmptyString => false | String _ _ => true end.

(** [s[-n:]] for [n > 0]: the last [n] characters, the whole of a shorter
    [s].  The program takes [key[-6:]] only. *)
Definition last_chars (n : nat) (s : string) : string :=
  String.substring (String.length s - n) n s.

(** [s[:n]] followed by ["..."] when [len(s) > n]. *)
Definition clipped (n : nat) (s : string) : string :=
  String.substring 0 n s +:+ (if (n <? String.length s)%nat then "..." else "").

End Text.


(* ===================================================================== *)
(** ** Constants of the program                                           *)
(* ===================================================================== *)

Definition ENV_PREFIX : string := "E2B_KEY_".
Definition MAX_CONNECTION_ATTEMPTS : nat := 10.

(* ===================================================================== *)
(** ** The outside world and what the program does to it                  *)
(* ===================================================================== *)

(** The finished background process: [proc.exit_code], [proc.stdout],
    [proc.stderr]. *)
Record process := {
  exit_code : Z;
  stdout : string;
  stderr : string
}.

(** The provider's answers.  Every call the program makes advances a
    clock, and the answer to a call is the one the stream holds at that
    tick: [inl text] is a raised [Exception(text)]. *)
Record World := {
  (** [AsyncSandbox.create(api_key=key, template='desktop', timeout=0)]:
      a session handle on success *)
  sandbox_create : string -> nat -> string + nat;
  (** [sbx.commands.run(cmd=cmd, background=True, timeout=0)] *)
  commands_run : nat -> string + unit;
  (** [sbx.get_info()]: the sandbox id *)
  get_info : nat -> string + string;
  (** [proc.wait()] *)
  proc_wait : nat -> string + process;
  (** leaving the [async with] block: [None] is a quiet release *)
  sandbox_release : nat -> option string;
  (** the raw randomness behind [random.randint] *)
  entropy : nat -> Z
}.

(** The program point of an [asyncio.sleep]. *)
Inductive cooldown :=
| FailedAttempt   (* after a failed connection attempt, line 94 *)
| Expired         (* the sandbox was not found, line 129 *)
| UnexpectedError (* any other run error, line 140 *)
| Normal          (* after a run that did not raise, line 145 *)
| Grace.          (* between two launches, line 181 *)

Inductive stream := Stdout | Stderr.

(** The lines the program prints, one constructor per [print]; the
    [sbx-idx] tag that starts each supervisor line is constant over a
    supervisor's trace and is left out. *)
Inductive message :=
| MsgAttempting (key_tail : string) (attempt total : nat)
| MsgStarted
| MsgBlocked (key_tail : string)
| MsgAttemptFailed (attempt : nat) (e : string)
| MsgFailCooldown (d : Z)
| MsgAbandonAfter (key_tail : string) (total : nat)
| MsgLaunching
| MsgSandboxId (id : string)
| MsgCompleted
| MsgExitedWith (code : Z)
| MsgStdout (text : string)
| MsgStderr (text : string)
| MsgTimedOut (d : Z)
| MsgUnexpected (e : string)
| MsgPausing (d : Z)
| MsgNormalCooldown (d : Z)
| MsgFound (n : nat)
| MsgGracePeriod (d : Z)
| MsgDowntimeRange              (* "Error: --downtime-min cannot be greater than --downtime-max" *)
| MsgNoKeys (prefix : string).  (* "No API keys found - set {prefix}* or pass --key" *)

(** A raised exception.  Everything the provider raises is an [Exception]
    with a message; [random.randint] raises [ValueError] on an empty
    range; [sys.exit(m)] raises [SystemExit], which [except Exception]
    does not catch. *)
Inductive exn :=
| Exception (text : string)
| ValueError (text : string)
| SystemExit (m : message).

(** [str(e)] *)
Definition str (e : exn) : string :=
  match e with
  | Exception t | ValueError t => t
  | SystemExit _ => ""
  end.

Definition is_Exception (e : exn) : bool :=
  match e with SystemExit _ => false | _ => true end.


(** The arguments of one [run_sandbox_lifecycle] coroutine. *)
Record task := {
  task_key : string;
  task_cmd : string;
  task_idx : nat;
  task_downtime_min : Z;
  task_downtime_max : Z
}.

Inductive event :=
| Print (out : stream) (m : message)
| Sleep (k : cooldown) (d : Z)
| CallCreate (key : string)
| CallCommandsRun (cmd : string)
| CallGetInfo
| CallWait
| CallRelease
| ReadEnviron (prefix : string)
| CreateTask (t : task)
| Gather (n : nat).

Record state := {
  trace : list event;     (* what happened so far, oldest first *)
  clock : nat             (* number of answers taken from the world *)
}.

Definition initial : state := {| trace := []; clock := 0 |}.

(** *** A state and exception monad *)

Inductive res (A : Type) :=
| Ok (a : A)
| Raise (e : exn).
Arguments Ok {A} a.
Arguments Raise {A} e.

Definition M (A : Type) : Type := state -> res A * state.

Definition ret {A} (a : A) : M A := fun st => (Ok a, st).

Definition bind {A B} (m : M A) (k : A -> M B) : M B :=
  fun st =>
    match m st with
    | (Ok a, st') => k a st'
    | (Raise e, st') => (Raise e, st')
    end.

Definition raise {A} (e : exn) : M A := fun st => (Raise e, st).

(** [try: m  except Exception as e: ...] with the caught exception, if
    any, handed to the caller as a value. *)
Definition try {A} (m : M A) : M (res A) :=
  fun st =>
    match m st with
    | (Ok a, st') => (Ok (Ok a), st')
    | (Raise e, st') =>
        if is_Exception e then (Ok (Raise e), st') else (Raise e, st')
    end.

(** The monad operations under stdpp's notation: [x ← m; k] and [m;; k]. *)
#[global] Instance M_ret : MRet M := @ret.
#[global] Instance M_bind : MBind M := fun A B k m => bind m k.

Definition emit (e : event) : M unit :=
  fun st => (Ok tt, {| trace := trace st ++ [e]; clock := clock st |}).

(** Take the world's answer at the current tick. *)
Definition ask {A} (f : nat -> A) : M A :=
  fun st => (Ok (f (clock st)), {| trace := trace st; clock := S (clock st) |}).

Definition lift {A} (r : string + A) : M A :=
  match r with
  | inl text => raise (Exception text)
  | inr a => ret a
  end.

Definition print (m : message) : M unit := emit (Print Stdout m).
Definition eprint (m : message) : M unit := emit (Print Stderr m).

(** [await asyncio.sleep(d)] *)
Definition sleep (k : cooldown) (d : Z) : M unit := emit (Sleep k d).

(** [random.randint(lo, hi)]: some integer of [lo..hi], which one is the
    world's choice; [ValueError] when the range is empty. *)
Definition randint (w : World) (lo hi : Z) : M Z :=
  if lo <=? hi
  then r ← ask (entropy w); mret (lo + r mod (hi - lo + 1))
  else raise (ValueError "empty range for randrange()").

(** [sys.exit(m)] with a message: the message goes to stderr and the
    exit status is 1. *)
Definition sys_exit {A} (m : message) : M A := raise (SystemExit m).

(** The exit status of the process, from how [main_async] ended. *)
Definition exit_status {A} (r : res A) : Z :=
  match r with
  | Ok _ => 0
  | Raise _ => 1
  end.

(* ===================================================================== *)
(** ** [run_sandbox_lifecycle]                                            *)
(* ===================================================================== *)

(* The coroutine's [idx] argument is used for the tag of its lines only,
   so the model does not take it. *)

(** How the connection [for] loop is left. *)
Inductive connect_exit :=
| LoopEnd (sbx_instance : option nat)  (* [break], or the range is used up *)
| ConnReturn.                          (* a [return] inside the loop *)

(** How one pass through the body of [while True] ends. *)
Inductive control :=
| Continue    (* [continue], or the end of the body *)
| Break
| Return.

Inductive outcome :=
| Returned        (* the coroutine has returned *)
| StillRunning.   (* the fuel is used up with the loop still going *)

Section Lifecycle.

Variable w : World.
Variables (key cmd : string) (downtime_min downtime_max : Z).

(** Lines 84-97, the [except Exception as e] of a connection attempt;
    [retry] is the rest of the [for] loop. *)
Definition connect_handler (attempt : nat) (e : exn)
    (retry : M connect_exit) : M connect_exit :=
  let error_text := Text.lower (str e) in
  if Text.str_in "team blocked" error_text
     || Text.str_in "suspended" error_text
  then
    eprint (MsgBlocked (Text.last_chars 6 key));;
    mret ConnReturn
  else
    eprint (MsgAttemptFailed (attempt + 1) (str e));;
    if (attempt <? MAX_CONNECTION_ATTEMPTS - 1)%nat
    then
      fail_cooldown ← randint w 60 250;
      eprint (MsgFailCooldown fail_cooldown);;
      sleep FailedAttempt fail_cooldown;;
      retry
    else
      eprint (MsgAbandonAfter (Text.last_chars 6 key)
                MAX_CONNECTION_ATTEMPTS);;
      mret ConnReturn.

(** Lines 78-97, the [for attempt in range(MAX_CONNECTION_ATTEMPTS)]
    loop over the attempts that are left. *)
Fixpoint connect_loop (attempts : list nat) : M connect_exit :=
  match attempts with
  | [] => mret (LoopEnd None)
  | attempt :: rest =>
      r ← try (print (MsgAttempting (Text.last_chars 6 key)
                        (attempt + 1) MAX_CONNECTION_ATTEMPTS);;
               emit (CallCreate key);;
               a ← ask (sandbox_create w key);
               sbx ← lift a;
               print MsgStarted;;
               mret sbx);
      match r with
      | Ok sbx => mret (LoopEnd (Some sbx))
      | Raise e => connect_handler attempt e (connect_loop rest)
      end
  end.

(** Lines 105-120, the body of the [async with]. *)
Definition run_body : M unit :=
  print MsgLaunching;;
  emit (CallCommandsRun cmd);;
  a ← ask (commands_run w);
  lift a;;
  emit CallGetInfo;;
  i ← ask (get_info w);
  info ← lift i;
  print (MsgSandboxId info);;
  emit CallWait;;
  p ← ask (proc_wait w);
  proc ← lift p;
  (if exit_code proc =? 0
   then print MsgCompleted
   else print (MsgExitedWith (exit_code proc)));;
  (if Text.truthy (stdout proc)
   then print (MsgStdout (Text.clipped 500 (stdout proc)))
   else mret tt);;
  (if Text.truthy (stderr proc)
   then print (MsgStderr (Text.clipped 500 (stderr proc)))
   else mret tt).

(** Line 104, [async with sbx_instance as sbx: body]: the session is
    released however the body ends; an exception raised by the release
    takes the place of the body's, and a quiet release lets the body's
    exception through. *)
Definition run_phase : M unit :=
  fun st =>
    let (r, st1) := run_body st in
    match (emit CallRelease;; ask (sandbox_release w)) st1 with
    | (Ok (Some text), st2) => (Raise (Exception text), st2)
    | (Ok None, st2) => (r, st2)
    | (Raise e, st2) => (Raise e, st2)
    end.

(** Lines 122-141, the [except Exception as e] of the run phase. *)
Definition run_handler (e : exn) : M control :=
  let error_text := Text.lower (str e) in
  if Text.str_in "the sandbox was not found" error_text then
    downtime ← randint w 360 900;
    print (MsgTimedOut downtime);;
    sleep Expired downtime;;
    mret Continue
  else if Text.str_in "team blocked" error_text
          || Text.str_in "suspended" error_text then
    eprint (MsgBlocked (Text.last_chars 6 key));;
    mret Break
  else
    error_cooldown ← randint w 300 600;
    eprint (MsgUnexpected (str e));;
    print (MsgPausing error_cooldown);;
    sleep UnexpectedError error_cooldown;;
    mret Continue.

(** Lines 76-145, one pass through the body of [while True]. *)
Definition iteration : M control :=
  c ← connect_loop (seq 0 MAX_CONNECTION_ATTEMPTS);
  match c with
  | ConnReturn => mret Return
  | LoopEnd None => mret Return
  | LoopEnd (Some sbx) =>
      r ← try run_phase;
      match r with
      | Raise e => run_handler e
      | Ok _ =>
          downtime ← randint w downtime_min downtime_max;
          print (MsgNormalCooldown downtime);;
          sleep Normal downtime;;
          mret Continue
      end
  end.

(** Lines 75-145, [while True], for at most [fuel] passes. *)
Fixpoint run_sandbox_lifecycle (fuel : nat) : M outcome :=
  match fuel with
  | O => mret StillRunning
  | S fuel' =>
      c ← iteration;
      match c with
      | Continue => run_sandbox_lifecycle fuel'
      | Break | Return => mret Returned
      end
  end.

End Lifecycle.

(* ===================================================================== *)
(** ** [env_keys], [main_async]                                           *)
(* ===================================================================== *)

(** What [parse_args] returns; [key] is [None] when no [--key] is given. *)
Record args := {
  key : option (list string);
  cmd : string;
  downtime_min : Z;
  downtime_max : Z
}.

(** Lines 55-57.  [environ] is [os.environ.items()], in its enumeration
    order, after [load_dotenv]. *)
Definition env_keys (environ : list (string * string)) (prefix : string)
  : list string :=
  map snd
    (List.filter
       (fun kv => String.prefix prefix (fst kv)
                  && Text.truthy (Text.strip (snd kv)))
       environ).

(** Lines 158-161, the loop over [env_keys() + (args.key or [])] with its
    two accumulators. *)
Fixpoint collect (ks : list string) (seen : gset string) (keys : list string)
  : list string :=
  match ks with
  | [] => keys
  | k :: rest =>
      if decide (k ∈ seen)
      then collect rest seen keys
      else collect rest (seen ∪ {[k]}) (keys ++ [k])
  end.

(** Lines 156-161: the merged list of credentials. *)
Definition credentials (environ : list (string * string)) (a : args)
  : list string :=
  collect (env_keys environ ENV_PREFIX ++ default [] (key a)) ∅ [].

Section Main.

Variable w : World.

(** Lines 169-181, [for i, k in enumerate(count())], for at most [fuel]
    passes; [None] when the fuel is used up before the [break]. *)
Fixpoint launch_loop (fuel : nat) (a : args) (keys : list string)
    (i : nat) (tasks : list task) : M (option (list task)) :=
  match fuel with
  | O => mret None
  | S fuel' =>
      if (length keys <=? i)%nat then mret (Some tasks)
      else
        match keys !! i with
        | None => raise (Exception "list index out of range")
        | Some k =>
            let t := {| task_key := k; task_cmd := cmd a; task_idx := i;
                        task_downtime_min := downtime_min a;
                        task_downtime_max := downtime_max a |} in
            emit (CreateTask t);;
            (if Z.of_nat i <? Z.of_nat (length keys) - 1
             then
               grace_period ← randint w 30 45;
               print (MsgGracePeriod grace_period);;
               sleep Grace grace_period
             else mret tt);;
            launch_loop fuel' a keys (S i) (tasks ++ [t])
        end
  end.

(** Lines 149-183.  The result is the list of launched tasks that
    [asyncio.gather] waits for, [None] when the fuel ran out. *)
Definition main_async (fuel : nat) (a : args)
    (environ : list (string * string)) : M (option (list task)) :=
  (if downtime_min a >? downtime_max a
   then sys_exit MsgDowntimeRange
   else mret tt);;
  emit (ReadEnviron ENV_PREFIX);;
  let keys := credentials environ a in
  (if bool_decide (keys = [])
   then sys_exit (MsgNoKeys ENV_PREFIX)
   else mret tt);;
  print (MsgFound (length keys));;
  r ← launch_loop fuel a keys 0 [];
  match r with
  | None => mret None
  | Some tasks => emit (Gather (length tasks));; mret (Some tasks)
  end.

End Main.

(* ===================================================================== *)
(** ** Worlds to run the model in                                         *)
(* ===================================================================== *)

Definition quiet_process : process :=
  {| exit_code := 0; stdout := ""; stderr := "" |}.

(** Every call succeeds, every command exits with status 0. *)
Definition calm : World :=
  {| sandbox_create := fun _ t => inr t;
     commands_run := fun _ => inr tt;
     get_info := fun _ => inr "sbx";
     proc_wait := fun _ => inr quiet_process;
     sandbox_release := fun _ => None;
     entropy := fun t => Z.of_nat t |}.

(** No session can be created: every attempt fails with [text]. *)
Definition unreachable_with (text : string) : World :=
  {| sandbox_create := fun _ _ => inl text;
     commands_run := commands_run calm;
     get_info := get_info calm;
     proc_wait := proc_wait calm;
     sandbox_release := sandbox_release calm;
     entropy := entropy calm |}.

(** Sessions start, and every wait for the command raises [text]. *)
Definition wait_raises (text : string) : World :=
  {| sandbox_create := sandbox_create calm;
     commands_run := commands_run calm;
     get_info := get_info calm;
     proc_wait := fun _ => inl text;
     sandbox_release := sandbox_release calm;
     entropy := entropy calm |}.


(* ===================================================================== *)
(** ** The vocabulary of the specification                                *)
(* ===================================================================== *)

(** [phrase] occurs in [text] when case is ignored: some contiguous block
    of [text] equals [phrase] up to the case of its letters. *)
Definition contains_ignoring_case (phrase text : string) : Prop :=
  ∃ pre mid post,
    text = pre +:+ mid +:+ post ∧ Text.lower mid = Text.lower phrase.

(** The error text carries a known terminal phrase. *)
Definition names_terminal_phrase (text : string) : Prop :=
  contains_ignoring_case "team blocked" text
  ∨ contains_ignoring_case "suspended" text.

(** The error text says that the remote session is gone. *)
Definition names_lost_session (text : string) : Prop :=
  contains_ignoring_case "the sandbox was not found" text.

(** The inclusive range of each kind of cooldown. *)
Definition in_range (dmin dmax : Z) (k : cooldown) (d : Z) : Prop :=
  match k with
  | FailedAttempt => 60 <= d <= 250
  | Expired => 360 <= d <= 900
  | UnexpectedError => 300 <= d <= 600
  | Normal => dmin <= d <= dmax
  | Grace => 30 <= d <= 45
  end.

Definition sleeps_in_range (dmin dmax : Z) (e : event) : Prop :=
  match e with
  | Sleep k d => in_range dmin dmax k d
  | _ => True
  end.

(** The trace only gains events, and every event it gains satisfies [P]. *)
Definition keeps (P : event → Prop) {A} (m : M A) : Prop :=
  ∀ st, ∃ evs, trace (m st).2 = trace st ++ evs ∧ Forall P evs.

(** [st] after [evs] happened and [ticks] answers were taken. *)
Definition after (st : state) (evs : list event) (ticks : nat) : state :=
  {| trace := trace st ++ evs; clock := ticks + clock st |}.

(** The value [random.randint(lo, hi)] returns at tick [t]. *)
Definition drawn (w : World) (lo hi : Z) (t : nat) : Z :=
  lo + entropy w t mod (hi - lo + 1).

(** The text of the exception that the creation call raises at tick [t]. *)
Definition create_error (w : World) (key : string) (t : nat) : string :=
  match sandbox_create w key t with
  | inl text => text
  | inr _ => ""
  end.

(** What a supervisor does around its [i]-th connection attempt (from 0)
    when the attempt fails and another one follows: the attempt, the
    failure line, and the cooldown before the next attempt.  Each such
    attempt takes two answers from the world, the provider's and the
    drawn cooldown. *)
Definition failed_attempt (w : World) (key : string) (i : nat) : list event :=
  let d := drawn w 60 250 (2 * i + 1) in
  [ Print Stdout (MsgAttempting (Text.last_chars 6 key) (i + 1)
                    MAX_CONNECTION_ATTEMPTS);
    CallCreate key;
    Print Stderr (MsgAttemptFailed (i + 1) (create_error w key (2 * i)));
    Print Stderr (MsgFailCooldown d);
    Sleep FailedAttempt d ].

(** The last attempt of the budget, when it fails as well: no cooldown,
    the key is given up. *)
Definition last_attempt (w : World) (key : string) : list event :=
  [ Print Stdout (MsgAttempting (Text.last_chars 6 key)
                    MAX_CONNECTION_ATTEMPTS MAX_CONNECTION_ATTEMPTS);
    CallCreate key;
    Print Stderr (MsgAttemptFailed MAX_CONNECTION_ATTEMPTS
                    (create_error w key 18));
    Print Stderr (MsgAbandonAfter (Text.last_chars 6 key)
                    MAX_CONNECTION_ATTEMPTS) ].

(** Observers of a trace. *)
Definition is_create (e : event) : bool :=
  match e with CallCreate _ => true | _ => false end.

Definition is_sleep (e : event) : bool :=
  match e with Sleep _ _ => true | _ => false end.

Definition is_normal_sleep (e : event) : bool :=
  match e with Sleep Normal _ => true | _ => false end.

Definition is_grace_sleep (e : event) : bool :=
  match e with Sleep Grace _ => true | _ => false end.

Definition is_run_event (e : event) : bool :=
  match e with
  | CallCommandsRun _ | CallGetInfo | CallWait | CallRelease => true
  | Print _ MsgLaunching => true
  | _ => false
  end.

Definition is_call (e : event) : bool :=
  match e with
  | CallCreate _ | CallCommandsRun _ | CallGetInfo | CallWait | CallRelease =>
      true
  | _ => false
  end.

Definition is_task (e : event) : bool :=
  match e with CreateTask _ => true | _ => false end.

(** The two lines that announce that a key is given up. *)
Definition is_abandon_msg (m : message) : bool :=
  match m with
  | MsgBlocked _ | MsgAbandonAfter _ _ => true
  | _ => false
  end.

Definition is_abandon_line (e : event) : bool :=
  match e with
  | Print _ m => is_abandon_msg m
  | _ => false
  end.

Definition count (f : event → bool) (tr : list event) : nat :=
  length (List.filter f tr).

(** Every connection phase of the supervisor ends with a session. *)
Definition always_connects (w : World) (key : string) : Prop :=
  ∀ st, ∃ sbx st',
    connect_loop w key (seq 0 MAX_CONNECTION_ATTEMPTS) st
    = (Ok (LoopEnd (Some sbx)), st').

(** Every run phase of the supervisor completes without raising. *)
Definition runs_cleanly (w : World) (cmd : string) : Prop :=
  ∀ st, ∃ st', run_phase w cmd st = (Ok tt, st').

(** A list without its repetitions: of equal entries the first stays. *)
Fixpoint first_occurrences (l : list string) : list string :=
  match l with
  | [] => []
  | x :: l' => x :: filter (λ y, y ≠ x) (first_occurrences l')
  end.

(** A value that [env_keys] lets through: not empty once stripped. *)
Definition not_blank (v : string) : Prop := Text.strip v ≠ "".

(** The coroutine arguments of the [i]-th launch. *)
Definition task_of (a : args) (i : nat) (k : string) : task :=
  {| task_key := k; task_cmd := cmd a; task_idx := i;
     task_downtime_min := downtime_min a;
     task_downtime_max := downtime_max a |}.

(** The tasks of the launches from index [i] on. *)
Fixpoint tasks_from (a : args) (i : nat) (remaining : list string)
  : list task :=
  match remaining with
  | [] => []
  | k :: rest => task_of a i k :: tasks_from a (S i) rest
  end.

(** Launching [remaining], the credentials from index [i] on, from tick
    [t]: one task per credential in order, and a grace period after each
    launch but the last. *)
Fixpoint staggered (w : World) (a : args) (i t : nat)
    (remaining : list string) : list event :=
  match remaining with
  | [] => []
  | k :: rest =>
      CreateTask (task_of a i k) ::
      match rest with
      | [] => []
      | _ :: _ =>
          let d := drawn w 30 45 t in
          Print Stdout (MsgGracePeriod d) :: Sleep Grace d ::
          staggered w a (S i) (S t) rest
      end
  end.

(** A provider that refuses the creation calls of the first [n] attempts
    of a supervisor with [text] and answers from then on; the attempts of
    the first connection phase take the even ticks. *)
Definition flaky (n : nat) (text : string) : World :=
  {| sandbox_create :=
       fun _ t => if (t <? 2 * n)%nat then inl text else inr t;
     commands_run := commands_run calm;
     get_info := get_info calm;
     proc_wait := proc_wait calm;
     sandbox_release := sandbox_release calm;
     entropy := entropy calm |}.

(** A provider that refuses the first [n] attempts with [text] and every
    later one with [final]. *)
Definition refuses (n : nat) (text final : string) : World :=
  {| sandbox_create :=
       fun _ t => if (t <? 2 * n)%nat then inl text else inl final;
     commands_run := commands_run calm;
     get_info := get_info calm;
     proc_wait := proc_wait calm;
     sandbox_release := sandbox_release calm;
     entropy := entropy calm |}.

(** Sessions start and the command ends as [proc]. *)
Definition exits_as (proc : process) : World :=
  {| sandbox_create := sandbox_create calm;
     commands_run := commands_run calm;
     get_info := get_info calm;
     proc_wait := fun _ => inr proc;
     sandbox_release := sandbox_release calm;
     entropy := entropy calm |}.

(** The session line: what a successful attempt adds to the trace. *)
Definition successful_attempt (key : string) (i : nat) : list event :=
  [ Print Stdout (MsgAttempting (Text.last_chars 6 key) (i + 1)
                    MAX_CONNECTION_ATTEMPTS);
    CallCreate key;
    Print Stdout MsgStarted ].

(** An attempt that ends with the key found blocked or suspended. *)
Definition blocked_attempt (key : string) (i : nat) : list event :=
  [ Print Stdout (MsgAttempting (Text.last_chars 6 key) (i + 1)
                    MAX_CONNECTION_ATTEMPTS);
    CallCreate key;
    Print Stderr (MsgBlocked (Text.last_chars 6 key)) ].

(** The trace ends with one of the two abandonment lines, on stderr. *)
Definition announces_abandonment (tr : list event) : Prop :=
  ∃ pre m, tr = pre ++ [Print Stderr m] ∧ is_abandon_msg m = true.

(** What the run phase prints about the finished command: the exit
    line, then the captured output streams that are not empty, clipped. *)
Definition report (proc : process) : list event :=
  [ Print Stdout (if exit_code proc =? 0
                  then MsgCompleted
                  else MsgExitedWith (exit_code proc)) ]
  ++ (if Text.truthy (stdout proc)
      then [Print Stdout (MsgStdout (Text.clipped 500 (stdout proc)))]
      else [])
  ++ (if Text.truthy (stderr proc)
      then [Print Stdout (MsgStderr (Text.clipped 500 (stderr proc)))]
      else []).

(** A run phase in which every call is answered. *)
Definition answered_run (cmd id : string) (proc : process) : list event :=
  [ Print Stdout MsgLaunching; CallCommandsRun cmd; CallGetInfo;
    Print Stdout (MsgSandboxId id); CallWait ]
  ++ report proc ++ [CallRelease].

Definition is_started (e : event) : bool :=
  match e with Print _ MsgStarted => true | _ => false end.

Definition is_release (e : event) : bool :=
  match e with CallRelease => true | _ => false end.

(** The number of seconds a line announces, for the lines printed just
    before a sleep. *)
Definition duration (m : message) : option Z :=
  match m with
  | MsgFailCooldown d | MsgTimedOut d | MsgPausing d
  | MsgNormalCooldown d | MsgGracePeriod d => Some d
  | _ => None
  end.

(** Every sleep of [evs] comes right after a line that announces its
    duration; [prev] is what the event before [evs] announced. *)
Fixpoint announced (prev : option Z) (evs : list event) : Prop :=
  match evs with
  | [] => True
  | e :: rest =>
      match e with
      | Sleep _ d => prev = Some d
      | _ => True
      end
      ∧ announced (match e with
                   | Print _ m => duration m
                   | _ => None
                   end) rest
  end.

(** A provider that answers the first creation call and refuses every
    later one with a text that names no terminal phrase. *)
Definition connects_once : World :=
  {| sandbox_create :=
       fun _ t => if (t =? 0)%nat then inr t else inl "connection timed out";
     commands_run := commands_run calm;
     get_info := get_info calm;
     proc_wait := proc_wait calm;
     sandbox_release := sandbox_release calm;
     entropy := entropy calm |}.

(** The piece of the key that a line shows, for the lines that show one. *)
Definition shown_key (e : event) : option string :=
  match e with
  | Print _ (MsgAttempting t _ _) | Print _ (MsgBlocked t)
  | Print _ (MsgAbandonAfter t _) => Some t
  | _ => None
  end.

(** [shown] is [s] clipped at [n] characters: [s] itself when it is that
    short, its first [n] characters and three dots otherwise. *)
Definition clipped_at (n : nat) (s shown : string) : Prop :=
  ((String.length s <= n)%nat → shown = s)
  ∧ ((n < String.length s)%nat →
     ∃ head tail,
       s = head +:+ tail
       ∧ String.length head = n
       ∧ shown = head +:+ "...").

(* ===================================================================== *)
(** ** Runs of the model                                                  *)
(* ===================================================================== *)

Example lower_mixed_case :
  Text.lower "The Sandbox WAS not Found (404)" = "the sandbox was not found (404)".
Proof. reflexivity. Qed.

Example substring_found :
  Text.str_in "suspended" (Text.lower "Team is SUSPENDED.") = true.
Proof. reflexivity. Qed.

Example substring_missing :
  Text.str_in "team blocked" (Text.lower "team was blocked") = false.
Proof. reflexivity. Qed.

Example strip_blank : Text.strip "  	 " = "".
Proof. reflexivity. Qed.

Example strip_inner : Text.strip "  a b  " = "a b".
Proof. reflexivity. Qed.

Example key_tail_long : Text.last_chars 6 "e2b_0123456789" = "456789".
Proof. reflexivity. Qed.

Example key_tail_short : Text.last_chars 6 "abc" = "abc".
Proof. reflexivity. Qed.

Example clipped_short : Text.clipped 4 "abcd" = "abcd".
Proof. reflexivity. Qed.

Example clipped_long : Text.clipped 3 "abcd" = "abc...".
Proof. reflexivity. Qed.

Example env_keys_filters :
  env_keys [ ("E2B_KEY_1", "key-b"); ("E2B_KEY_2", "  "); ("HOME", "/root");
             ("E2B_KEY_3", "key-a"); ("XE2B_KEY_4", "key-x") ] ENV_PREFIX
  = ["key-b"; "key-a"].
Proof. reflexivity. Qed.

Example credentials_keep_first :
  credentials [ ("E2B_KEY_1", "key-b"); ("E2B_KEY_2", "key-a");
                ("E2B_KEY_3", "key-b") ]
    {| key := Some ["key-a"; "key-c"; "key-b"; "key-c"]; cmd := "sleep 1";
       downtime_min := 30; downtime_max := 45 |}
  = ["key-b"; "key-a"; "key-c"].
Proof. reflexivity. Qed.

(** One pass of a supervisor whose calls all succeed. *)
Example calm_pass :
  run_sandbox_lifecycle calm "e2b_0123456789" "sleep 1" 30 45 1 initial
  = (Ok StillRunning,
     {| trace :=
          [ Print Stdout (MsgAttempting "456789" 1 10);
            CallCreate "e2b_0123456789";
            Print Stdout MsgStarted;
            Print Stdout MsgLaunching;
            CallCommandsRun "sleep 1";
            CallGetInfo;
            Print Stdout (MsgSandboxId "sbx");
            CallWait;
            Print Stdout MsgCompleted;
            CallRelease;
            Print Stdout (MsgNormalCooldown 35);
            Sleep Normal 35 ];
        clock := 6 |}).
Proof. reflexivity. Qed.

(** An unexpected run error: the long pause, then the loop goes on. *)
Example unexpected_error_pass :
  run_sandbox_lifecycle (wait_raises "connection reset") "e2b_0123456789"
    "sleep 1" 30 45 1 initial
  = (Ok StillRunning,
     {| trace :=
          [ Print Stdout (MsgAttempting "456789" 1 10);
            CallCreate "e2b_0123456789";
            Print Stdout MsgStarted;
            Print Stdout MsgLaunching;
            CallCommandsRun "sleep 1";
            CallGetInfo;
            Print Stdout (MsgSandboxId "sbx");
            CallWait;
            CallRelease;
            Print Stderr (MsgUnexpected "connection reset");
            Print Stdout (MsgPausing 305);
            Sleep UnexpectedError 305 ];
        clock := 6 |}).
Proof. reflexivity. Qed.

(** Called with its bounds out of order, which [main_async] never does,
    the coroutine dies of the [ValueError] of [random.randint]. *)
Example bounds_out_of_order :
  (run_sandbox_lifecycle calm "e2b_0123456789" "sleep 1" 45 30 1 initial).1
  = Raise (ValueError "empty range for randrange()").
Proof. reflexivity. Qed.

Example main_two_keys :
  main_async calm 3
    {| key := Some ["key-b"]; cmd := "sleep 1";
       downtime_min := 30; downtime_max := 45 |}
    [("E2B_KEY_1", "key-a")] initial
  = (Ok (Some [ {| task_key := "key-a"; task_cmd := "sleep 1"; task_idx := 0;
                   task_downtime_min := 30; task_downtime_max := 45 |};
                {| task_key := "key-b"; task_cmd := "sleep 1"; task_idx := 1;
                   task_downtime_min := 30; task_downtime_max := 45 |} ]),
     {| trace :=
          [ ReadEnviron "E2B_KEY_"; Print Stdout (MsgFound 2);
            CreateTask {| task_key := "key-a"; task_cmd := "sleep 1";
                          task_idx := 0; task_downtime_min := 30;
                          task_downtime_max := 45 |};
            Print Stdout (MsgGracePeriod 30); Sleep Grace 30;
            CreateTask {| task_key := "key-b"; task_cmd := "sleep 1";
                          task_idx := 1; task_downtime_min := 30;
                          task_downtime_max := 45 |};
            Gather 2 ];
        clock := 1 |}).
Proof. reflexivity. Qed.

(* ===================================================================== *)
(** ** Facts about text                                                   *)
(* ===================================================================== *)

Section TextFacts.

Import Text.

Lemma prefix_app (n h : string) :
  String.prefix n h = true ↔ ∃ post, h = n +:+ post.
Proof.
  revert h. induction n as [|c n IH]; intros [|c' h]; simpl.
  - split; [intros _; by exists "" | done].
  - split; [intros _; by exists (String c' h) | done].
  - split; [done | intros [post Hp]; discriminate].
  - destruct (Ascii.ascii_dec c c') as [->|Hne].
    + rewrite IH. split; intros [post Hp]; exists post.
      * by rewrite Hp.
      * simpl in Hp. by injection Hp.
    + split; [done | intros [post Hp]; injection Hp; congruence].
Qed.

Lemma str_in_nil (n : string) : str_in n "" = String.prefix n "".
Proof. unfold str_in. apply orb_false_r. Qed.

Lemma str_in_cons (n : string) (c : ascii) (h : string) :
  str_in n (String c h) = String.prefix n (String c h) || str_in n h.
Proof. reflexivity. Qed.

Lemma str_in_app (n h : string) :
  str_in n h = true ↔ ∃ pre post, h = pre +:+ n +:+ post.
Proof.
  induction h as [|c h IH].
  - rewrite str_in_nil, prefix_app. split.
    + intros [post Hp]. by exists "", post.
    + intros ([|c pre] & post & Hp); [by exists post | discriminate].
  - rewrite str_in_cons, orb_true_iff, prefix_app, IH. split.
    + intros [[post Hp] | (pre & post & Hp)].
      * by exists "", post.
      * exists (String c pre), post. by rewrite Hp.
    + intros ([|c' pre] & post & Hp).
      * left. by exists post.
      * right. injection Hp as _ Hp. by exists pre, post.
Qed.

Lemma lower_app (a b : string) : lower (a +:+ b) = lower a +:+ lower b.
Proof. induction a as [|c a IH]; simpl; [done | by rewrite IH]. Qed.

Lemma lower_split (s a b : string) :
  lower s = a +:+ b →
  ∃ s1 s2, s = s1 +:+ s2 ∧ lower s1 = a ∧ lower s2 = b.
Proof.
  revert s. induction a as [|c a IH]; intros s H; simpl in H.
  - by exists "", s.
  - destruct s as [|c' s]; [discriminate|]. simpl in H.
    injection H as Hc Hs. destruct (IH _ Hs) as (s1 & s2 & -> & <- & <-).
    exists (String c' s1), s2. simpl. by rewrite Hc.
Qed.

(** What the source tests, [phrase in text.lower()], is the
    specification's match with case ignored, for a phrase written in
    lower case. *)
Lemma str_in_lower (phrase text : string) :
  lower phrase = phrase →
  str_in phrase (lower text) = true ↔ contains_ignoring_case phrase text.
Proof.
  intros Hp. rewrite str_in_app. unfold contains_ignoring_case. split.
  - intros (pre & post & H).
    destruct (lower_split _ _ _ H) as (s1 & s23 & -> & _ & H23).
    destruct (lower_split _ _ _ H23) as (s2 & s3 & -> & H2 & _).
    exists s1, s2, s3. by rewrite Hp.
  - intros (pre & mid & post & -> & H).
    exists (lower pre), (lower post).
    by rewrite !lower_app, H, Hp.
Qed.

Lemma terminal_test (text : string) :
  str_in "team blocked" (lower text) || str_in "suspended" (lower text)
    = true
  ↔ names_terminal_phrase text.
Proof.
  unfold names_terminal_phrase.
  by rewrite orb_true_iff, !str_in_lower.
Qed.

Lemma terminal_test_false (text : string) :
  str_in "team blocked" (lower text) || str_in "suspended" (lower text)
    = false
  ↔ ¬ names_terminal_phrase text.
Proof. rewrite <- terminal_test. by destruct (_ || _). Qed.

Lemma lost_session_test (text : string) :
  str_in "the sandbox was not found" (lower text) = true
  ↔ names_lost_session text.
Proof. by apply str_in_lower. Qed.

Lemma lost_session_test_false (text : string) :
  str_in "the sandbox was not found" (lower text) = false
  ↔ ¬ names_lost_session text.
Proof. rewrite <- lost_session_test. by destruct (str_in _ _). Qed.

End TextFacts.

(* ===================================================================== *)
(** ** Facts about the monad                                              *)
(* ===================================================================== *)

Ltac unfold_ops :=
  unfold mbind, M_bind, bind, mret, M_ret, ret, try, print, eprint, sleep,
    emit, ask, lift, raise, sys_exit.

Lemma drawn_in_range (w : World) (lo hi : Z) (t : nat) :
  lo <= hi → lo <= drawn w lo hi t <= hi.
Proof.
  intros H. unfold drawn.
  pose proof (Z.mod_pos_bound (entropy w t) (hi - lo + 1)). lia.
Qed.

Lemma randint_run (w : World) (lo hi : Z) (st : state) :
  lo <= hi → randint w lo hi st = (Ok (drawn w lo hi (clock st)), after st [] 1).
Proof.
  intros H. unfold randint. apply Z.leb_le in H. rewrite H.
  unfold_ops. unfold after, drawn. simpl. by rewrite app_nil_r.
Qed.

Lemma randint_empty (w : World) (lo hi : Z) (st : state) :
  hi < lo →
  randint w lo hi st = (Raise (ValueError "empty range for randrange()"), st).
Proof.
  intros H. unfold randint. apply Z.leb_gt in H. by rewrite H.
Qed.

Section Keeps.

Variable P : event → Prop.

Lemma keeps_ret {A} (a : A) : keeps P (mret a).
Proof. intros st. exists []. by rewrite app_nil_r. Qed.

Lemma keeps_raise {A} (e : exn) : keeps P (@raise A e).
Proof. intros st. exists []. by rewrite app_nil_r. Qed.

Lemma keeps_emit (e : event) : P e → keeps P (emit e).
Proof. intros H st. exists [e]. split; [done | by constructor]. Qed.

Lemma keeps_ask {A} (f : nat → A) : keeps P (ask f).
Proof. intros st. exists []. by rewrite app_nil_r. Qed.

Lemma keeps_lift {A} (r : string + A) : keeps P (lift r).
Proof. destruct r; [apply keeps_raise | apply keeps_ret]. Qed.

Lemma keeps_bind {A B} (m : M A) (k : A → M B) :
  keeps P m → (∀ a, keeps P (k a)) → keeps P (m ≫= k).
Proof.
  intros Hm Hk st. destruct (Hm st) as (evs & Ht & Hp).
  unfold_ops. destruct (m st) as [[a|e] st1]; simpl in *.
  - destruct (Hk a st1) as (evs' & Ht' & Hp').
    exists (evs ++ evs'). rewrite Ht', Ht, app_assoc.
    split; [done | by apply Forall_app].
  - by exists evs.
Qed.

Lemma keeps_try {A} (m : M A) : keeps P m → keeps P (try m).
Proof.
  intros Hm st. destruct (Hm st) as (evs & Ht & Hp). exists evs.
  unfold try. destruct (m st) as [[a|e] st1]; simpl in *; [done|].
  by destruct (is_Exception e).
Qed.

Lemma keeps_randint {B} (w : World) (lo hi : Z) (k : Z → M B) :
  (∀ d, lo <= d <= hi → keeps P (k d)) → keeps P (randint w lo hi ≫= k).
Proof.
  intros Hk st. unfold mbind, M_bind, bind.
  destruct (Z_le_gt_dec lo hi) as [Hle|Hgt].
  - rewrite randint_run by done.
    destruct (Hk _ (drawn_in_range w lo hi (clock st) Hle) (after st [] 1))
      as (evs & Ht & Hp).
    exists evs. rewrite Ht. simpl. by rewrite app_nil_r.
  - rewrite randint_empty by lia. exists []. by rewrite app_nil_r.
Qed.

End Keeps.

(* ===================================================================== *)
(** ** Facts about the connection phase                                   *)
(* ===================================================================== *)

Lemma after_after (st : state) (a b : list event) (n m : nat) :
  after (after st a n) b m = after st (a ++ b) (m + n).
Proof. unfold after. simpl. f_equal; [by rewrite app_assoc | lia]. Qed.

Lemma after_initial (evs : list event) (n : nat) :
  after initial evs n = {| trace := evs; clock := n |}.
Proof. unfold after. simpl. f_equal. lia. Qed.

Section ConnectFacts.

Variable w : World.
Variable key : string.

Let attempting (attempt : nat) : event :=
  Print Stdout (MsgAttempting (Text.last_chars 6 key) (attempt + 1)
                  MAX_CONNECTION_ATTEMPTS).

(** An attempt whose creation call raises goes to the handler. *)
Lemma connect_loop_raise (attempt : nat) (rest : list nat) (st : state)
    (text : string) :
  sandbox_create w key (clock st) = inl text →
  connect_loop w key (attempt :: rest) st =
  connect_handler w key attempt (Exception text) (connect_loop w key rest)
    (after st [attempting attempt; CallCreate key] 1).
Proof.
  intros H. cbn [connect_loop]. unfold_ops. simpl. rewrite H. simpl.
  unfold after. simpl. by rewrite <- app_assoc.
Qed.

(** An attempt whose creation call answers leaves the loop. *)
Lemma connect_loop_ok (attempt : nat) (rest : list nat) (st : state)
    (sbx : nat) :
  sandbox_create w key (clock st) = inr sbx →
  connect_loop w key (attempt :: rest) st =
  (Ok (LoopEnd (Some sbx)),
   after st [attempting attempt; CallCreate key; Print Stdout MsgStarted] 1).
Proof.
  intros H. cbn [connect_loop]. unfold_ops. simpl. rewrite H. simpl.
  unfold after. simpl. by rewrite <- !app_assoc.
Qed.

Lemma connect_handler_terminal (attempt : nat) (e : exn)
    (retry : M connect_exit) (st : state) :
  names_terminal_phrase (str e) →
  connect_handler w key attempt e retry st =
  (Ok ConnReturn, after st [Print Stderr (MsgBlocked (Text.last_chars 6 key))] 0).
Proof.
  intros H. apply terminal_test in H.
  unfold connect_handler. cbv zeta. rewrite H. reflexivity.
Qed.

Lemma connect_handler_retry (attempt : nat) (e : exn)
    (retry : M connect_exit) (st : state) :
  ¬ names_terminal_phrase (str e) →
  (attempt < MAX_CONNECTION_ATTEMPTS - 1)%nat →
  connect_handler w key attempt e retry st =
  retry (after st
           [ Print Stderr (MsgAttemptFailed (attempt + 1) (str e));
             Print Stderr (MsgFailCooldown (drawn w 60 250 (clock st)));
             Sleep FailedAttempt (drawn w 60 250 (clock st)) ] 1).
Proof.
  intros H Hlt. apply terminal_test_false in H.
  apply Nat.ltb_lt in Hlt.
  unfold connect_handler. cbv zeta. rewrite H, Hlt.
  unfold mbind, M_bind, bind. unfold eprint at 1, emit at 1.
  rewrite randint_run by done.
  unfold_ops. unfold after. simpl. f_equal. f_equal.
  by rewrite app_nil_r, <- !app_assoc.
Qed.

Lemma connect_handler_give_up (attempt : nat) (e : exn)
    (retry : M connect_exit) (st : state) :
  ¬ names_terminal_phrase (str e) →
  (MAX_CONNECTION_ATTEMPTS - 1 <= attempt)%nat →
  connect_handler w key attempt e retry st =
  (Ok ConnReturn,
   after st
     [ Print Stderr (MsgAttemptFailed (attempt + 1) (str e));
       Print Stderr (MsgAbandonAfter (Text.last_chars 6 key)
                       MAX_CONNECTION_ATTEMPTS) ] 0).
Proof.
  intros H Hge. apply terminal_test_false in H.
  apply Nat.ltb_ge in Hge.
  unfold connect_handler. cbv zeta. rewrite H, Hge.
  unfold_ops. unfold after. simpl. by rewrite <- !app_assoc.
Qed.

End ConnectFacts.

(* ===================================================================== *)
(** ** The retry budget                                                   *)
(* ===================================================================== *)

Section RetryBudget.

Variable w : World.
Variable key : string.

(** Every creation call raises, with a text that names no terminal
    phrase. *)
Hypothesis unreachable :
  ∀ t, ∃ text,
    sandbox_create w key t = inl text ∧ ¬ names_terminal_phrase text.

Lemma failed_attempt_step (attempt : nat) (rest : list nat) (st : state) :
  connect_loop w key (attempt :: rest) st =
  let failed :=
    [ Print Stdout (MsgAttempting (Text.last_chars 6 key) (attempt + 1)
                      MAX_CONNECTION_ATTEMPTS);
      CallCreate key;
      Print Stderr (MsgAttemptFailed (attempt + 1)
                      (create_error w key (clock st))) ] in
  if (attempt <? MAX_CONNECTION_ATTEMPTS - 1)%nat
  then
    connect_loop w key rest
      (after st
         (failed ++
          [ Print Stderr (MsgFailCooldown (drawn w 60 250 (S (clock st))));
            Sleep FailedAttempt (drawn w 60 250 (S (clock st))) ]) 2)
  else
    (Ok ConnReturn,
     after st
       (failed ++
        [ Print Stderr (MsgAbandonAfter (Text.last_chars 6 key)
                          MAX_CONNECTION_ATTEMPTS) ]) 1).
Proof.
  destruct (unreachable (clock st)) as (text & Hc & Hn).
  rewrite (connect_loop_raise _ _ _ _ _ _ Hc).
  unfold create_error. rewrite Hc. cbv zeta.
  destruct (attempt <? MAX_CONNECTION_ATTEMPTS - 1)%nat eqn:Hlt.
  - apply Nat.ltb_lt in Hlt.
    rewrite connect_handler_retry by done.
    by rewrite after_after.
  - apply Nat.ltb_ge in Hlt.
    rewrite connect_handler_give_up by done.
    by rewrite after_after.
Qed.

Lemma connect_loop_unreachable :
  connect_loop w key (seq 0 MAX_CONNECTION_ATTEMPTS) initial =
  (Ok ConnReturn,
   {| trace := flat_map (failed_attempt w key) (seq 0 9) ++ last_attempt w key;
      clock := 19 |}).
Proof.
  unfold MAX_CONNECTION_ATTEMPTS. cbn [seq].
  do 10 (rewrite failed_attempt_step;
         cbn [Nat.ltb Nat.leb Nat.sub Nat.add MAX_CONNECTION_ATTEMPTS
              after clock trace initial app]).
  reflexivity.
Qed.

End RetryBudget.

(* ===================================================================== *)
(** ** What a supervisor adds to its trace                                *)
(* ===================================================================== *)

Ltac keeps_step :=
  first [ apply keeps_ret | apply keeps_raise | apply keeps_lift
        | apply keeps_ask | apply keeps_try
        | apply keeps_emit
        | apply keeps_bind; [| intros ?] ].

Section KeepsLifecycle.

Variable P : event → Prop.
Variable w : World.
Variables (key cmd : string) (downtime_min downtime_max : Z).

Hypothesis P_print : ∀ out m, is_abandon_msg m = false → P (Print out m).
Hypothesis P_call : ∀ e, is_call e = true → P e.

Let P_sleeps (k : cooldown) : Prop :=
  ∀ d, in_range downtime_min downtime_max k d → P (Sleep k d).

Let P_abandon : Prop :=
  ∀ out m, is_abandon_msg m = true → P (Print out m).

Lemma keeps_connect_handler (attempt : nat) (e : exn)
    (retry : M connect_exit) :
  P_abandon → P_sleeps FailedAttempt → keeps P retry →
  keeps P (connect_handler w key attempt e retry).
Proof.
  intros Ha Hs Hr. unfold connect_handler. cbv zeta.
  destruct (_ || _).
  - repeat keeps_step; by apply Ha.
  - keeps_step; [keeps_step; by apply P_print|].
    destruct (attempt <? _)%nat.
    + apply keeps_randint. intros d Hd.
      repeat keeps_step; first [by apply P_print | by apply Hs | done].
    + repeat keeps_step; first [by apply P_print | by apply Ha].
Qed.

Lemma keeps_connect_loop (attempts : list nat) :
  P_abandon → P_sleeps FailedAttempt →
  keeps P (connect_loop w key attempts).
Proof.
  intros Ha Hs. induction attempts as [|attempt rest IH]; cbn [connect_loop].
  - apply keeps_ret.
  - keeps_step.
    + repeat keeps_step; first [by apply P_print | by apply P_call].
    + destruct a as [sbx|e]; [apply keeps_ret|].
      by apply keeps_connect_handler.
Qed.

Lemma keeps_run_body : keeps P (run_body w cmd).
Proof.
  unfold run_body.
  repeat first [ keeps_step
               | match goal with |- keeps _ (if ?b then _ else _) =>
                   destruct b end ];
    first [by apply P_print | by apply P_call].
Qed.

Lemma keeps_run_phase : keeps P (run_phase w cmd).
Proof.
  intros st. destruct (keeps_run_body st) as (evs & Ht & Hp).
  unfold run_phase. destruct (run_body w cmd st) as [r st1].
  unfold_ops. simpl in *.
  exists (evs ++ [CallRelease]). split.
  - destruct (sandbox_release w (clock st1)); simpl;
      by rewrite Ht, app_assoc.
  - apply Forall_app. split; [done|]. constructor; [by apply P_call | done].
Qed.

Lemma keeps_run_handler (e : exn) :
  P_abandon → P_sleeps Expired → P_sleeps UnexpectedError →
  keeps P (run_handler w key e).
Proof.
  intros Ha He Hu. unfold run_handler. cbv zeta.
  destruct (Text.str_in "the sandbox was not found" _).
  - apply keeps_randint. intros d Hd.
    repeat keeps_step; first [by apply P_print | by apply He].
  - destruct (_ || _).
    + repeat keeps_step; by apply Ha.
    + apply keeps_randint. intros d Hd.
      repeat keeps_step; first [by apply P_print | by apply Hu].
Qed.

(** The rest of a pass once the connection loop is left. *)
Lemma keeps_after_connect (c : connect_exit) :
  P_abandon → (∀ k, P_sleeps k) →
  keeps P
    (match c with
     | ConnReturn => mret Return
     | LoopEnd None => mret Return
     | LoopEnd (Some sbx) =>
         r ← try (run_phase w cmd);
         match r with
         | Raise e => run_handler w key e
         | Ok _ =>
             downtime ← randint w downtime_min downtime_max;
             print (MsgNormalCooldown downtime);;
             sleep Normal downtime;;
             mret Continue
         end
     end).
Proof.
  intros Ha Hs.
  destruct c as [[sbx|]|]; try apply keeps_ret.
  keeps_step; [apply keeps_try, keeps_run_phase|].
  destruct a as [[]|e].
  - apply keeps_randint. intros d Hd.
    repeat keeps_step; first [by apply P_print | by apply Hs].
  - by apply keeps_run_handler.
Qed.

Lemma keeps_iteration :
  P_abandon → (∀ k, P_sleeps k) →
  keeps P (iteration w key cmd downtime_min downtime_max).
Proof.
  intros Ha Hs. unfold iteration.
  keeps_step; [by apply keeps_connect_loop|].
  by apply keeps_after_connect.
Qed.

Lemma keeps_lifecycle (fuel : nat) :
  P_abandon → (∀ k, P_sleeps k) →
  keeps P (run_sandbox_lifecycle w key cmd downtime_min downtime_max fuel).
Proof.
  intros Ha Hs. induction fuel as [|fuel IH]; cbn [run_sandbox_lifecycle].
  - apply keeps_ret.
  - keeps_step; [by apply keeps_iteration|].
    destruct a; [done | apply keeps_ret | apply keeps_ret].
Qed.

End KeepsLifecycle.

(* ===================================================================== *)
(** ** How a pass begins                                                  *)
(* ===================================================================== *)

Lemma count_app (f : event → bool) (a b : list event) :
  count f (a ++ b) = (count f a + count f b)%nat.
Proof. unfold count. by rewrite List.filter_app, length_app. Qed.

Lemma count_none (f : event → bool) (evs : list event) :
  Forall (λ e, f e = false) evs → count f evs = 0%nat.
Proof.
  unfold count. induction 1 as [|e evs He _ IH]; [done|].
  simpl. by rewrite He.
Qed.

Lemma starts_bind {A B} (m : M A) (k : A → M B) (st : state)
    (evs : list event) :
  (∃ more, trace (m st).2 = trace st ++ evs ++ more) →
  (∀ a, keeps (λ _, True) (k a)) →
  ∃ more, trace ((m ≫= k) st).2 = trace st ++ evs ++ more.
Proof.
  intros [more Hm] Hk. unfold mbind, M_bind, bind.
  destruct (m st) as [[a|e] st1]; simpl in *.
  - destruct (Hk a st1) as (evs' & Ht & _).
    exists (more ++ evs'). by rewrite Ht, Hm, <- !app_assoc.
  - by exists more.
Qed.

Section Starts.

Variable w : World.
Variables (key cmd : string) (downtime_min downtime_max : Z).

Lemma connect_loop_starts (attempt : nat) (rest : list nat) (st : state) :
  ∃ more,
    trace (connect_loop w key (attempt :: rest) st).2 =
    trace st
    ++ [ Print Stdout (MsgAttempting (Text.last_chars 6 key) (attempt + 1)
                         MAX_CONNECTION_ATTEMPTS);
         CallCreate key ]
    ++ more.
Proof.
  destruct (sandbox_create w key (clock st)) as [text|sbx] eqn:Hc.
  - rewrite (connect_loop_raise _ _ _ _ _ _ Hc).
    assert (K : keeps (λ _, True)
                  (connect_handler w key attempt (Exception text)
                     (connect_loop w key rest))).
    { apply keeps_connect_handler
        with (downtime_min := 0) (downtime_max := 0); try done.
      by apply keeps_connect_loop
        with (downtime_min := 0) (downtime_max := 0). }
    destruct (K (after st
                   [ Print Stdout
                       (MsgAttempting (Text.last_chars 6 key) (attempt + 1)
                          MAX_CONNECTION_ATTEMPTS);
                     CallCreate key ] 1)) as (evs & Ht & _).
    exists evs. rewrite Ht. simpl. by rewrite <- app_assoc.
  - rewrite (connect_loop_ok _ _ _ _ _ _ Hc).
    by exists [Print Stdout MsgStarted].
Qed.

(** Every pass through [while True] begins with the first connection
    attempt for the supervisor's key. *)
Lemma lifecycle_starts_connecting (fuel : nat) (st : state) :
  ∃ more,
    trace (run_sandbox_lifecycle w key cmd downtime_min downtime_max
             (S fuel) st).2 =
    trace st
    ++ [ Print Stdout (MsgAttempting (Text.last_chars 6 key) 1
                         MAX_CONNECTION_ATTEMPTS);
         CallCreate key ]
    ++ more.
Proof.
  cbn [run_sandbox_lifecycle]. apply starts_bind.
  - unfold iteration. apply starts_bind.
    + apply (connect_loop_starts 0).
    + intros c. by apply keeps_after_connect.
  - intros c. destruct c; try apply keeps_ret.
    by apply keeps_lifecycle.
Qed.

End Starts.

(* ===================================================================== *)
(** ** One pass through the loop                                          *)
(* ===================================================================== *)

Section LifecycleSteps.

Variable w : World.
Variables (key cmd : string) (downtime_min downtime_max : Z).

Let connect := connect_loop w key (seq 0 MAX_CONNECTION_ATTEMPTS).
Let pass := iteration w key cmd downtime_min downtime_max.
Let lifecycle := run_sandbox_lifecycle w key cmd downtime_min downtime_max.

Lemma lifecycle_step (fuel : nat) (st : state) :
  lifecycle (S fuel) st =
  match pass st with
  | (Ok Continue, st') => lifecycle fuel st'
  | (Ok _, st') => (Ok Returned, st')
  | (Raise e, st') => (Raise e, st')
  end.
Proof.
  unfold lifecycle, pass. cbn [run_sandbox_lifecycle].
  unfold mbind, M_bind, bind.
  by destruct (iteration _ _ _ _ _ st) as [[[]|] ?].
Qed.

(** A [return] inside the connection loop ends the pass. *)
Lemma iteration_conn_return (st st' : state) :
  connect st = (Ok ConnReturn, st') → pass st = (Ok Return, st').
Proof.
  intros H. unfold pass, iteration, mbind, M_bind, bind.
  fold connect. by rewrite H.
Qed.

(** With a session the pass goes on to the run phase. *)
Lemma iteration_clean (st st1 st2 : state) (sbx : nat) :
  connect st = (Ok (LoopEnd (Some sbx)), st1) →
  run_phase w cmd st1 = (Ok tt, st2) →
  downtime_min <= downtime_max →
  pass st =
  (Ok Continue,
   after st2
     [ Print Stdout
         (MsgNormalCooldown (drawn w downtime_min downtime_max (clock st2)));
       Sleep Normal (drawn w downtime_min downtime_max (clock st2)) ] 1).
Proof.
  intros Hc Hr Hle. unfold pass, iteration, mbind, M_bind, bind.
  fold connect. rewrite Hc. unfold try. rewrite Hr.
  rewrite randint_run by done.
  unfold_ops. unfold after. simpl. by rewrite app_nil_r, <- app_assoc.
Qed.

Lemma iteration_crash (st st1 st2 : state) (sbx : nat) :
  connect st = (Ok (LoopEnd (Some sbx)), st1) →
  run_phase w cmd st1 = (Ok tt, st2) →
  downtime_max < downtime_min →
  pass st = (Raise (ValueError "empty range for randrange()"), st2).
Proof.
  intros Hc Hr Hlt. unfold pass, iteration, mbind, M_bind, bind.
  fold connect. rewrite Hc. unfold try. rewrite Hr.
  by rewrite randint_empty.
Qed.

Lemma iteration_raise (st st1 st2 : state) (sbx : nat) (text : string) :
  connect st = (Ok (LoopEnd (Some sbx)), st1) →
  run_phase w cmd st1 = (Raise (Exception text), st2) →
  pass st = run_handler w key (Exception text) st2.
Proof.
  intros Hc Hr. unfold pass, iteration, mbind, M_bind, bind.
  fold connect. rewrite Hc. unfold try. by rewrite Hr.
Qed.

Lemma run_handler_lost (e : exn) (st : state) :
  names_lost_session (str e) →
  run_handler w key e st =
  (Ok Continue,
   after st [ Print Stdout (MsgTimedOut (drawn w 360 900 (clock st)));
              Sleep Expired (drawn w 360 900 (clock st)) ] 1).
Proof.
  intros H. apply lost_session_test in H.
  unfold run_handler. cbv zeta. rewrite H.
  unfold mbind, M_bind, bind. rewrite randint_run by done.
  unfold_ops. unfold after. simpl. by rewrite app_nil_r, <- app_assoc.
Qed.

Lemma run_handler_terminal (e : exn) (st : state) :
  ¬ names_lost_session (str e) → names_terminal_phrase (str e) →
  run_handler w key e st =
  (Ok Break, after st [Print Stderr (MsgBlocked (Text.last_chars 6 key))] 0).
Proof.
  intros Hl Ht. apply lost_session_test_false in Hl.
  apply terminal_test in Ht.
  unfold run_handler. cbv zeta. by rewrite Hl, Ht.
Qed.

Lemma run_handler_unexpected (e : exn) (st : state) :
  ¬ names_lost_session (str e) → ¬ names_terminal_phrase (str e) →
  run_handler w key e st =
  (Ok Continue,
   after st [ Print Stderr (MsgUnexpected (str e));
              Print Stdout (MsgPausing (drawn w 300 600 (clock st)));
              Sleep UnexpectedError (drawn w 300 600 (clock st)) ] 1).
Proof.
  intros Hl Ht. apply lost_session_test_false in Hl.
  apply terminal_test_false in Ht.
  unfold run_handler. cbv zeta. rewrite Hl, Ht.
  unfold mbind, M_bind, bind. rewrite randint_run by done.
  unfold_ops. unfold after. simpl. by rewrite app_nil_r, <- !app_assoc.
Qed.

End LifecycleSteps.

(* ===================================================================== *)
(** ** The claims about the supervisor                                    *)
(* ===================================================================== *)

(** C1.  A supervisor all of whose connection attempts fail with an error
    that names no terminal phrase makes exactly 10 attempts, sleeps a
    failed-attempt cooldown after each of the first nine and none after
    the tenth, and returns without entering the run phase. *)
Theorem retry_budget_exhausted (w : World) (key cmd : string)
    (downtime_min downtime_max : Z) (fuel : nat) :
  (∀ t, ∃ text,
     sandbox_create w key t = inl text ∧ ¬ names_terminal_phrase text) →
  ∃ tr,
    run_sandbox_lifecycle w key cmd downtime_min downtime_max (S fuel) initial
    = (Ok Returned, {| trace := tr; clock := 19 |})
    ∧ tr = flat_map (failed_attempt w key) (seq 0 9) ++ last_attempt w key
    ∧ count is_create tr = 10%nat
    ∧ count is_sleep tr = 9%nat
    ∧ count is_run_event tr = 0%nat.
Proof.
  intros H. eexists. split; [|split; [reflexivity|]].
  - rewrite lifecycle_step.
    by rewrite (iteration_conn_return _ _ _ _ _ _ _
                  (connect_loop_unreachable w key H)).
  - by repeat split.
Qed.

Lemma retry_budget_exhausted_witness :
  ∃ tr,
    run_sandbox_lifecycle (unreachable_with "connection timed out")
      "e2b_0123456789" "sleep 1" 30 45 1 initial
    = (Ok Returned, {| trace := tr; clock := 19 |})
    ∧ tr = flat_map (failed_attempt (unreachable_with "connection timed out")
                       "e2b_0123456789") (seq 0 9)
           ++ last_attempt (unreachable_with "connection timed out")
                "e2b_0123456789"
    ∧ count is_create tr = 10%nat
    ∧ count is_sleep tr = 9%nat
    ∧ count is_run_event tr = 0%nat.
Proof.
  apply (retry_budget_exhausted (unreachable_with "connection timed out")
           "e2b_0123456789" "sleep 1" 30 45 0).
  intros t. exists "connection timed out". split; [reflexivity|].
  apply terminal_test_false. reflexivity.
Defined.

(** C3.  Every cooldown a supervisor sleeps lies in the range of its
    kind: the normal one in the configured [downtime_min, downtime_max],
    the session-expired one in [360, 900], the unexpected-error one in
    [300, 600] and the failed-attempt one in [60, 250]. *)
Theorem cooldowns_in_range (w : World) (key cmd : string)
    (downtime_min downtime_max : Z) (fuel : nat) :
  Forall (sleeps_in_range downtime_min downtime_max)
    (trace (run_sandbox_lifecycle w key cmd downtime_min downtime_max
              fuel initial).2).
Proof.
  assert (K : keeps (sleeps_in_range downtime_min downtime_max)
                (run_sandbox_lifecycle w key cmd downtime_min downtime_max
                   fuel)).
  { apply keeps_lifecycle.
    - by intros out m _.
    - by intros [].
    - by intros out m _.
    - by intros k d. }
  destruct (K initial) as (evs & Ht & Hp). by rewrite Ht.
Qed.

(** C2, as stated, fails in the run phase: an error text that names the
    lost session and a terminal phrase together is handled as a lost
    session.  The supervisor sleeps and connects again. *)
Lemma terminal_phrase_after_lost_session :
  names_terminal_phrase "The sandbox was not found: account suspended"
  ∧ ∃ st,
      run_sandbox_lifecycle
        (wait_raises "The sandbox was not found: account suspended")
        "e2b_0123456789" "sleep 1" 30 45 2 initial
      = (Ok StillRunning, st)
      ∧ count is_create (trace st) = 2%nat
      ∧ count is_sleep (trace st) = 2%nat
      ∧ count is_abandon_line (trace st) = 0%nat.
Proof.
  split.
  - apply terminal_test. reflexivity.
  - eexists. split; [vm_compute; reflexivity|]. by repeat split.
Qed.

(** C2, amended.  An error text that names a terminal phrase ends the
    supervisor at once: in the connection phase whatever the attempt and
    the attempts left, with the abandonment line as the only further
    event, and in the run phase when the text does not also say that the
    sandbox was not found.  No cooldown is slept, no further connection
    attempt is made and no further pass is started. *)
Theorem terminal_phrase_abandons (w : World) (key cmd : string)
    (downtime_min downtime_max : Z) (text : string) :
  names_terminal_phrase text →
  (∀ attempt rest st,
     sandbox_create w key (clock st) = inl text →
     connect_loop w key (attempt :: rest) st =
     (Ok ConnReturn,
      after st
        [ Print Stdout (MsgAttempting (Text.last_chars 6 key) (attempt + 1)
                          MAX_CONNECTION_ATTEMPTS);
          CallCreate key;
          Print Stderr (MsgBlocked (Text.last_chars 6 key)) ] 1))
  ∧ (∀ st st' fuel,
       connect_loop w key (seq 0 MAX_CONNECTION_ATTEMPTS) st
       = (Ok ConnReturn, st') →
       run_sandbox_lifecycle w key cmd downtime_min downtime_max (S fuel) st
       = (Ok Returned, st'))
  ∧ (¬ names_lost_session text →
     ∀ st sbx st1 st2 fuel,
       connect_loop w key (seq 0 MAX_CONNECTION_ATTEMPTS) st
       = (Ok (LoopEnd (Some sbx)), st1) →
       run_phase w cmd st1 = (Raise (Exception text), st2) →
       run_sandbox_lifecycle w key cmd downtime_min downtime_max (S fuel) st
       = (Ok Returned,
          after st2 [Print Stderr (MsgBlocked (Text.last_chars 6 key))] 0)).
Proof.
  intros Ht. split; [|split].
  - intros attempt rest st Hc.
    rewrite (connect_loop_raise _ _ _ _ _ _ Hc).
    rewrite connect_handler_terminal by done.
    by rewrite after_after.
  - intros st st' fuel Hc.
    by rewrite lifecycle_step, (iteration_conn_return _ _ _ _ _ _ _ Hc).
  - intros Hl st sbx st1 st2 fuel Hc Hr.
    rewrite lifecycle_step, (iteration_raise _ _ _ _ _ _ _ _ _ _ Hc Hr).
    by rewrite run_handler_terminal.
Qed.

Lemma terminal_phrase_abandons_witness :
  names_terminal_phrase "Team Blocked"
  ∧ ∃ st2,
      run_sandbox_lifecycle (wait_raises "Team Blocked")
        "e2b_0123456789" "sleep 1" 30 45 3 initial
      = (Ok Returned,
         after st2 [Print Stderr (MsgBlocked "456789")] 0).
Proof.
  assert (Ht : names_terminal_phrase "Team Blocked")
    by (apply terminal_test; reflexivity).
  split; [exact Ht|].
  eexists.
  apply (proj2 (proj2 (terminal_phrase_abandons (wait_raises "Team Blocked")
                         "e2b_0123456789" "sleep 1" 30 45 "Team Blocked" Ht)))
    with (sbx := 0%nat)
         (st1 := {| trace :=
                      [ Print Stdout (MsgAttempting "456789" 1 10);
                        CallCreate "e2b_0123456789";
                        Print Stdout MsgStarted ];
                    clock := 1 |}).
  - apply lost_session_test_false. reflexivity.
  - reflexivity.
  - reflexivity.
Defined.

(** C8.  A run-phase error whose text says that the sandbox was not found
    does not end the supervisor: it prints the informational line, sleeps
    a cooldown of [360, 900] seconds, and goes through the loop again,
    beginning with the first connection attempt for the same key. *)
Theorem lost_session_resumes (w : World) (key cmd : string)
    (downtime_min downtime_max : Z) (text : string)
    (st st1 st2 : state) (sbx fuel : nat) :
  names_lost_session text →
  connect_loop w key (seq 0 MAX_CONNECTION_ATTEMPTS) st
  = (Ok (LoopEnd (Some sbx)), st1) →
  run_phase w cmd st1 = (Raise (Exception text), st2) →
  let d := drawn w 360 900 (clock st2) in
  let st3 := after st2 [Print Stdout (MsgTimedOut d); Sleep Expired d] 1 in
  360 <= d <= 900
  ∧ run_sandbox_lifecycle w key cmd downtime_min downtime_max (S fuel) st
    = run_sandbox_lifecycle w key cmd downtime_min downtime_max fuel st3
  ∧ ∃ more,
      trace (run_sandbox_lifecycle w key cmd downtime_min downtime_max
               (S (S fuel)) st).2
      = trace st3
        ++ [ Print Stdout (MsgAttempting (Text.last_chars 6 key) 1
                             MAX_CONNECTION_ATTEMPTS);
             CallCreate key ]
        ++ more.
Proof.
  intros Hl Hc Hr d st3.
  assert (Hstep : ∀ n,
    run_sandbox_lifecycle w key cmd downtime_min downtime_max (S n) st
    = run_sandbox_lifecycle w key cmd downtime_min downtime_max n st3).
  { intros n.
    rewrite lifecycle_step, (iteration_raise _ _ _ _ _ _ _ _ _ _ Hc Hr).
    by rewrite run_handler_lost. }
  split; [by apply drawn_in_range | split; [apply Hstep|]].
  rewrite Hstep. apply lifecycle_starts_connecting.
Qed.

Lemma lost_session_resumes_witness :
  let w := wait_raises "The sandbox was not found" in
  let st1 := {| trace := [ Print Stdout (MsgAttempting "456789" 1 10);
                           CallCreate "e2b_0123456789";
                           Print Stdout MsgStarted ];
                clock := 1 |} in
  let st2 := after st1 [ Print Stdout MsgLaunching; CallCommandsRun "sleep 1";
                         CallGetInfo; Print Stdout (MsgSandboxId "sbx");
                         CallWait; CallRelease ] 4 in
  names_lost_session "The sandbox was not found"
  ∧ run_sandbox_lifecycle w "e2b_0123456789" "sleep 1" 30 45 1 initial
    = run_sandbox_lifecycle w "e2b_0123456789" "sleep 1" 30 45 0
        (after st2 [Print Stdout (MsgTimedOut 365); Sleep Expired 365] 1).
Proof.
  intros w st1 st2.
  assert (Hl : names_lost_session "The sandbox was not found")
    by (apply lost_session_test; reflexivity).
  split; [exact Hl|].
  apply (proj1 (proj2 (lost_session_resumes w
            "e2b_0123456789" "sleep 1" 30 45 "The sandbox was not found"
            initial st1 st2 0 0 Hl eq_refl eq_refl))).
Defined.

(* ===================================================================== *)
(** ** Runs that never raise                                              *)
(* ===================================================================== *)

Section CleanRuns.

Variable w : World.
Variables (key cmd : string) (downtime_min downtime_max : Z).

Let quiet (e : event) : Prop :=
  is_normal_sleep e = false ∧ is_abandon_line e = false.

Lemma quiet_counts (st st' : state) (evs : list event) :
  trace st' = trace st ++ evs → Forall quiet evs →
  count is_normal_sleep (trace st') = count is_normal_sleep (trace st)
  ∧ count is_abandon_line (trace st') = count is_abandon_line (trace st).
Proof.
  intros -> Hq. rewrite !count_app.
  rewrite (count_none is_normal_sleep evs), (count_none is_abandon_line evs).
  - lia.
  - eapply Forall_impl; [exact Hq | by intros e []].
  - eapply Forall_impl; [exact Hq | by intros e []].
Qed.

(** A connection phase that ends with a session printed no
    abandonment line on its way. *)
Lemma connect_success_quiet (attempts : list nat) (st st' : state)
    (sbx : nat) :
  connect_loop w key attempts st = (Ok (LoopEnd (Some sbx)), st') →
  ∃ evs, trace st' = trace st ++ evs ∧ Forall quiet evs.
Proof.
  revert st. induction attempts as [|attempt rest IH]; intros st H.
  - discriminate.
  - destruct (sandbox_create w key (clock st)) as [text|s] eqn:Hc.
    + rewrite (connect_loop_raise _ _ _ _ _ _ Hc) in H.
      destruct (Text.str_in "team blocked" (Text.lower text)
                || Text.str_in "suspended" (Text.lower text)) eqn:Ht.
      * apply terminal_test in Ht.
        rewrite connect_handler_terminal in H by done. discriminate.
      * apply terminal_test_false in Ht.
        destruct (attempt <? MAX_CONNECTION_ATTEMPTS - 1)%nat eqn:Hlt.
        -- apply Nat.ltb_lt in Hlt.
           rewrite connect_handler_retry, after_after in H by done.
           destruct (IH _ H) as (evs & Hev & Hq).
           eexists. split; [rewrite Hev; simpl; by rewrite <- app_assoc|].
           apply Forall_app. split; [|done].
           by repeat constructor.
        -- apply Nat.ltb_ge in Hlt.
           rewrite connect_handler_give_up in H by done. discriminate.
    + rewrite (connect_loop_ok _ _ _ _ _ _ Hc) in H.
      injection H as _ <-. eexists. split; [reflexivity|].
      by repeat constructor.
Qed.

Lemma run_phase_quiet (st : state) :
  ∃ evs, trace (run_phase w cmd st).2 = trace st ++ evs ∧ Forall quiet evs.
Proof.
  apply (keeps_run_phase quiet).
  - by intros out m Hm.
  - by intros [].
Qed.

Hypothesis range_ok : downtime_min <= downtime_max.
Hypothesis connects : always_connects w key.
Hypothesis clean : runs_cleanly w cmd.

Lemma clean_cycles (n : nat) (st0 : state) :
  ∃ st,
    run_sandbox_lifecycle w key cmd downtime_min downtime_max n st0
    = (Ok StillRunning, st)
    ∧ count is_normal_sleep (trace st)
      = (n + count is_normal_sleep (trace st0))%nat
    ∧ count is_abandon_line (trace st) = count is_abandon_line (trace st0).
Proof.
  revert st0. induction n as [|n IH]; intros st0.
  - by exists st0.
  - destruct (connects st0) as (sbx & st1 & Hc).
    destruct (clean st1) as (st2 & Hr).
    rewrite lifecycle_step, (iteration_clean _ _ _ _ _ _ _ _ _ Hc Hr range_ok).
    destruct (IH (after st2
                    [ Print Stdout
                        (MsgNormalCooldown
                           (drawn w downtime_min downtime_max (clock st2)));
                      Sleep Normal
                        (drawn w downtime_min downtime_max (clock st2)) ] 1))
      as (st & Hl & Hn & Ha).
    exists st. split; [done|]. rewrite Hn, Ha. cbn [after trace].
    rewrite !count_app.
    destruct (connect_success_quiet _ _ _ _ Hc) as (evs1 & He1 & Hq1).
    destruct (quiet_counts _ _ _ He1 Hq1) as [Hn1 Ha1].
    destruct (run_phase_quiet st1) as (evs2 & He2 & Hq2).
    rewrite Hr in He2. simpl in He2.
    destruct (quiet_counts _ _ _ He2 Hq2) as [Hn2 Ha2].
    rewrite Hn2, Ha2, Hn1, Ha1. unfold count. simpl. lia.
Qed.

End CleanRuns.

(** When the four calls of the run phase answer, whatever the exit code
    of the command, the run phase does not raise. *)
Lemma run_phase_answers (w : World) (cmd : string) (st : state)
    (id : string) (proc : process) :
  commands_run w (clock st) = inr tt →
  get_info w (1 + clock st) = inr id →
  proc_wait w (2 + clock st) = inr proc →
  sandbox_release w (3 + clock st) = None →
  ∃ st', run_phase w cmd st = (Ok tt, st').
Proof.
  intros H1 H2 H3 H4. unfold run_phase, run_body. unfold_ops. simpl in *.
  rewrite H1. simpl. rewrite H2. simpl. rewrite H3. simpl.
  destruct (exit_code proc =? 0), (Text.truthy (stdout proc)),
    (Text.truthy (stderr proc)); simpl; rewrite H4; by eexists.
Qed.

Lemma calm_always_connects (key : string) : always_connects calm key.
Proof. intros st. by eexists _, _. Qed.

Lemma calm_runs_cleanly (cmd : string) : runs_cleanly calm cmd.
Proof. intros st. by apply run_phase_answers with "sbx" quiet_process. Qed.

(** C10.  How an error is handled depends on its text alone, through
    matches that ignore case: in both phases "team blocked" and
    "suspended" mark the key as permanently invalid; in the run phase
    "the sandbox was not found" marks a lost session and is looked for
    first; every other run-phase error is an unexpected one. *)
Theorem classification_by_substring (w : World) (key : string) (e : exn) :
  (∀ attempt retry st,
     (names_terminal_phrase (str e) →
      connect_handler w key attempt e retry st =
      (Ok ConnReturn,
       after st [Print Stderr (MsgBlocked (Text.last_chars 6 key))] 0))
     ∧ (¬ names_terminal_phrase (str e) →
        connect_handler w key attempt e retry st =
        if (attempt <? MAX_CONNECTION_ATTEMPTS - 1)%nat
        then
          retry (after st
                   [ Print Stderr (MsgAttemptFailed (attempt + 1) (str e));
                     Print Stderr
                       (MsgFailCooldown (drawn w 60 250 (clock st)));
                     Sleep FailedAttempt (drawn w 60 250 (clock st)) ] 1)
        else
          (Ok ConnReturn,
           after st
             [ Print Stderr (MsgAttemptFailed (attempt + 1) (str e));
               Print Stderr (MsgAbandonAfter (Text.last_chars 6 key)
                               MAX_CONNECTION_ATTEMPTS) ] 0)))
  ∧ (∀ st,
       (names_lost_session (str e) →
        run_handler w key e st =
        (Ok Continue,
         after st [ Print Stdout (MsgTimedOut (drawn w 360 900 (clock st)));
                    Sleep Expired (drawn w 360 900 (clock st)) ] 1))
       ∧ (¬ names_lost_session (str e) → names_terminal_phrase (str e) →
          run_handler w key e st =
          (Ok Break,
           after st [Print Stderr (MsgBlocked (Text.last_chars 6 key))] 0))
       ∧ (¬ names_lost_session (str e) → ¬ names_terminal_phrase (str e) →
          run_handler w key e st =
          (Ok Continue,
           after st
             [ Print Stderr (MsgUnexpected (str e));
               Print Stdout (MsgPausing (drawn w 300 600 (clock st)));
               Sleep UnexpectedError (drawn w 300 600 (clock st)) ] 1)))
  ∧ (∀ e', str e' = str e →
       run_handler w key e' = run_handler w key e
       ∧ ∀ attempt retry,
           connect_handler w key attempt e' retry
           = connect_handler w key attempt e retry).
Proof.
  split; [|split].
  - intros attempt retry st. split; intros Ht.
    + by apply connect_handler_terminal.
    + destruct (attempt <? MAX_CONNECTION_ATTEMPTS - 1)%nat eqn:Hlt.
      * apply Nat.ltb_lt in Hlt. by apply connect_handler_retry.
      * apply Nat.ltb_ge in Hlt. by apply connect_handler_give_up.
  - intros st. repeat split.
    + apply run_handler_lost.
    + apply run_handler_terminal.
    + apply run_handler_unexpected.
  - intros e' He. split.
    + unfold run_handler. by rewrite He.
    + intros attempt retry. unfold connect_handler. by rewrite He.
Qed.

Lemma classification_by_substring_witness :
  names_terminal_phrase "Your account was SUSPENDED"
  ∧ ¬ names_lost_session "Your account was SUSPENDED"
  ∧ run_handler calm "e2b_0123456789"
      (Exception "Your account was SUSPENDED") initial
    = (Ok Break, after initial [Print Stderr (MsgBlocked "456789")] 0).
Proof.
  assert (Ht : names_terminal_phrase "Your account was SUSPENDED")
    by (apply terminal_test; reflexivity).
  assert (Hl : ¬ names_lost_session "Your account was SUSPENDED")
    by (apply lost_session_test_false; reflexivity).
  split; [exact Ht | split; [exact Hl|]].
  exact (proj1 (proj2 (proj1 (proj2
           (classification_by_substring calm "e2b_0123456789"
              (Exception "Your account was SUSPENDED"))) initial)) Hl Ht).
Defined.


(* ===================================================================== *)
(** ** The credential source                                              *)
(* ===================================================================== *)

Lemma first_occurrences_elem (l : list string) (x : string) :
  x ∈ first_occurrences l ↔ x ∈ l.
Proof.
  induction l as [|y l IH]; [done|]. cbn [first_occurrences].
  rewrite !elem_of_cons, list_elem_of_filter, IH.
  destruct (decide (x = y)); naive_solver.
Qed.

Lemma first_occurrences_NoDup (l : list string) : NoDup (first_occurrences l).
Proof.
  induction l as [|y l IH]; cbn [first_occurrences]; [constructor|].
  apply NoDup_cons. split.
  - rewrite list_elem_of_filter. naive_solver.
  - by apply NoDup_filter.
Qed.

Lemma first_occurrences_sublist (l : list string) :
  first_occurrences l `sublist_of` l.
Proof.
  induction l as [|y l IH]; cbn [first_occurrences]; [done|].
  apply sublist_skip. etrans; [apply sublist_filter | done].
Qed.

(** The loop with its [seen] set computes the first occurrences that are
    not yet seen. *)
Lemma collect_spec (l : list string) (seen : gset string)
    (keys : list string) :
  collect l seen keys = keys ++ filter (λ y, y ∉ seen) (first_occurrences l).
Proof.
  revert seen keys. induction l as [|x l IH]; intros seen keys.
  - simpl. by rewrite app_nil_r.
  - cbn [collect first_occurrences]. case_decide as Hx.
    + rewrite IH, filter_cons_False by naive_solver.
      rewrite list_filter_filter_l; [done|]. set_solver.
    + rewrite IH, filter_cons_True by done.
      rewrite <- app_assoc. simpl. do 2 f_equal.
      rewrite list_filter_filter. apply list_filter_iff. set_solver.
Qed.

Lemma credentials_spec (environ : list (string * string)) (a : args) :
  credentials environ a
  = first_occurrences (env_keys environ ENV_PREFIX ++ default [] (key a)).
Proof.
  unfold credentials. rewrite collect_spec. simpl.
  induction (first_occurrences _) as [|x l IH]; [done|].
  rewrite filter_cons_True by set_solver. by rewrite IH.
Qed.

Lemma credentials_empty (environ : list (string * string)) (a : args) :
  credentials environ a = []
  ↔ env_keys environ ENV_PREFIX = [] ∧ default [] (key a) = [].
Proof.
  rewrite credentials_spec. split.
  - intros H. apply app_eq_nil.
    by destruct (env_keys environ ENV_PREFIX ++ default [] (key a)).
  - by intros [-> ->].
Qed.

Lemma truthy_strip (v : string) :
  Text.truthy (Text.strip v) = true ↔ not_blank v.
Proof. unfold not_blank. by destruct (Text.strip v). Qed.

Lemma env_keys_elem (environ : list (string * string)) (prefix v : string) :
  v ∈ env_keys environ prefix
  ↔ ∃ name, (name, v) ∈ environ
            ∧ String.prefix prefix name = true ∧ not_blank v.
Proof.
  unfold env_keys. induction environ as [|[name' v'] environ IH].
  - simpl. split; [by intros ?%elem_of_nil|].
    by intros (name & ?%elem_of_nil & _).
  - cbn [List.filter fst snd].
    destruct (String.prefix prefix name' && Text.truthy (Text.strip v'))
      eqn:Hk.
    + cbn [map snd]. rewrite elem_of_cons, IH.
      apply andb_true_iff in Hk as [Hp Hv%truthy_strip]. split.
      * intros [->|(name & Hin & ?)].
        -- exists name'. split; [left|done].
        -- exists name. split; [by right|done].
      * intros (name & [Heq|Hin]%elem_of_cons & ?).
        -- left. congruence.
        -- right. by exists name.
    + rewrite IH. split.
      * intros (name & Hin & ?). exists name. split; [by right|done].
      * intros (name & [Heq|Hin]%elem_of_cons & Hp & Hv).
        -- injection Heq as -> ->. apply truthy_strip in Hv.
           by rewrite Hp, Hv in Hk.
        -- by exists name.
Qed.

Lemma env_keys_not_blank (environ : list (string * string))
    (prefix : string) :
  Forall not_blank (env_keys environ prefix).
Proof.
  apply Forall_forall. intros v Hv.
  apply env_keys_elem in Hv as (name & _ & _ & Hv). exact Hv.
Qed.

(** C4.  The credential source does not keep its list free of empty
    strings: [env_keys] drops the blank values of the environment, and
    the loop of [main_async] takes a [--key] value as it is, so an empty
    one becomes a credential. *)
Lemma empty_flag_is_a_credential :
  credentials [("E2B_KEY_1", "  "); ("HOME", "/root")]
    {| key := Some [""]; cmd := "sleep 1";
       downtime_min := 30; downtime_max := 45 |}
  = [""]
  ∧ ¬ Forall (λ k, k ≠ "")
        (credentials [("E2B_KEY_1", "  "); ("HOME", "/root")]
           {| key := Some [""]; cmd := "sleep 1";
              downtime_min := 30; downtime_max := 45 |}).
Proof.
  split; [reflexivity|].
  intros H. by apply Forall_inv in H.
Qed.

Lemma env_keys_app (e1 e2 : list (string * string)) (prefix : string) :
  env_keys (e1 ++ e2) prefix = env_keys e1 prefix ++ env_keys e2 prefix.
Proof. unfold env_keys. by rewrite List.filter_app, map_app. Qed.

Lemma env_keys_one (name v prefix : string) :
  (String.prefix prefix name = true ∧ not_blank v →
   env_keys [(name, v)] prefix = [v])
  ∧ (¬ (String.prefix prefix name = true ∧ not_blank v) →
     env_keys [(name, v)] prefix = []).
Proof.
  unfold env_keys. cbn [List.filter fst snd].
  destruct (String.prefix prefix name); cbn [andb].
  - destruct (Text.truthy (Text.strip v)) eqn:Hv; cbn [map snd].
    + split; [done|]. intros H. destruct H. split; [done|].
      by apply truthy_strip.
    + split; [|done]. intros [_ H%truthy_strip]. congruence.
  - split; [by intros [? _] | done].
Qed.

Lemma env_keys_sublist (environ : list (string * string))
    (prefix : string) :
  env_keys environ prefix `sublist_of` map snd environ.
Proof.
  unfold env_keys. induction environ as [|[name v] environ IH]; [done|].
  cbn [List.filter map]. destruct (_ && _); cbn [map].
  - by apply sublist_skip.
  - by apply sublist_cons.
Qed.

(** X19.  What the merge computes.  The environment contributes, in its
    enumeration order, the values of the variables whose name starts
    with the prefix and whose value is not blank; the [--key] values
    follow in the order given, taken as they are; of equal strings only
    the first occurrence stays, so the list has no repetition. *)
Theorem credentials_deduplicated (environ : list (string * string))
    (a : args) :
  let from_env := env_keys environ ENV_PREFIX in
  let from_flags := default [] (key a) in
  credentials environ a = first_occurrences (from_env ++ from_flags)
  ∧ NoDup (credentials environ a)
  ∧ credentials environ a `sublist_of` from_env ++ from_flags
  ∧ (∀ k, k ∈ credentials environ a ↔ k ∈ from_env ∨ k ∈ from_flags)
  ∧ from_env `sublist_of` map snd environ
  ∧ (∀ e1 e2,
       env_keys (e1 ++ e2) ENV_PREFIX
       = env_keys e1 ENV_PREFIX ++ env_keys e2 ENV_PREFIX)
  ∧ (∀ name v,
       (String.prefix ENV_PREFIX name = true ∧ not_blank v →
        env_keys [(name, v)] ENV_PREFIX = [v])
       ∧ (¬ (String.prefix ENV_PREFIX name = true ∧ not_blank v) →
          env_keys [(name, v)] ENV_PREFIX = [])).
Proof.
  intros from_env from_flags. rewrite credentials_spec.
  fold from_env from_flags.
  split; [done|]. split; [apply first_occurrences_NoDup|].
  split; [apply first_occurrences_sublist|].
  split; [|split; [|split]].
  - intros k. by rewrite first_occurrences_elem, elem_of_app.
  - apply env_keys_sublist.
  - intros e1 e2. apply env_keys_app.
  - intros name v. apply env_keys_one.
Qed.

(* ===================================================================== *)
(** ** The launch loop and [main_async]                                   *)
(* ===================================================================== *)

Lemma after_nil (st : state) : after st [] 0 = st.
Proof. destruct st. unfold after. simpl. by rewrite app_nil_r. Qed.

Lemma staggered_tasks (w : World) (a : args) (i t : nat)
    (remaining : list string) :
  count is_task (staggered w a i t remaining) = length remaining.
Proof.
  revert i t. induction remaining as [|k [|k' rest] IH]; intros i t;
    [done | done |].
  specialize (IH (S i) (S t)). cbn [staggered] in *.
  unfold count in *. simpl in *. by rewrite IH.
Qed.

Lemma staggered_sleeps (w : World) (a : args) (i t : nat)
    (remaining : list string) :
  count is_sleep (staggered w a i t remaining) = (length remaining - 1)%nat
  ∧ count is_grace_sleep (staggered w a i t remaining)
    = (length remaining - 1)%nat.
Proof.
  revert i t. induction remaining as [|k [|k' rest] IH]; intros i t;
    [done | done |].
  specialize (IH (S i) (S t)). cbn [staggered] in *.
  unfold count in *. simpl in *. destruct IH as [-> ->]. lia.
Qed.

Lemma staggered_in_range (w : World) (a : args) (i t : nat)
    (remaining : list string) (dmin dmax : Z) :
  Forall (sleeps_in_range dmin dmax) (staggered w a i t remaining).
Proof.
  revert i t. induction remaining as [|k [|k' rest] IH]; intros i t.
  - constructor.
  - by repeat constructor.
  - cbn [staggered]. do 2 (constructor; [done|]).
    constructor; [|apply (IH (S i) (S t))].
    simpl. by apply drawn_in_range.
Qed.

Lemma tasks_from_keys (a : args) (i : nat) (remaining : list string) :
  map task_key (tasks_from a i remaining) = remaining
  ∧ map task_idx (tasks_from a i remaining) = seq i (length remaining).
Proof.
  revert i. induction remaining as [|k rest IH]; intros i; [done|].
  destruct (IH (S i)) as [Hk Hi]. simpl. by rewrite Hk, Hi.
Qed.

Section LaunchFacts.

Variable w : World.
Variable a : args.
Variable keys : list string.

(** With fuel for every pass the loop launches what is left of [keys]
    and stops at the [break]. *)
Lemma launch_loop_run (fuel i : nat) (tasks : list task) (st : state) :
  (length keys - i < fuel)%nat →
  launch_loop w fuel a keys i tasks st =
  (Ok (Some (tasks ++ tasks_from a i (drop i keys))),
   after st (staggered w a i (clock st) (drop i keys))
     (length (drop i keys) - 1)).
Proof.
  revert i tasks st. induction fuel as [|fuel IH]; intros i tasks st Hf;
    [lia|].
  cbn [launch_loop]. destruct (length keys <=? i)%nat eqn:Hi.
  - apply Nat.leb_le in Hi. rewrite drop_ge by done. simpl.
    by rewrite app_nil_r, after_nil.
  - apply Nat.leb_gt in Hi.
    destruct (lookup_lt_is_Some_2 keys i Hi) as [k Hk].
    rewrite Hk, (drop_S _ _ _ Hk). fold (task_of a i k).
    unfold mbind at 1 2, M_bind at 1 2, bind at 1 2. unfold emit at 1.
    destruct (Z.of_nat i <? Z.of_nat (length keys) - 1) eqn:Hg.
    + apply Z.ltb_lt in Hg.
      unfold mbind at 1, M_bind at 1, bind at 1.
      rewrite randint_run by done.
      unfold_ops. cbn [trace clock after].
      rewrite IH by (simpl; lia).
      assert (Hn : drop (S i) keys ≠ []).
      { intros Hd%(f_equal length). rewrite length_drop in Hd.
        simpl in Hd. lia. }
      cbn [tasks_from staggered length].
      destruct (drop (S i) keys) as [|k' rest] eqn:Hd; [done|].
      unfold after. cbn [trace clock Nat.add].
      rewrite <- !app_assoc. cbn [app length Nat.sub].
      do 2 f_equal. lia.
    + apply Z.ltb_ge in Hg.
      assert (Hd : drop (S i) keys = []) by (apply drop_ge; lia).
      unfold mret at 1, M_ret at 1, ret at 1.
      rewrite IH by (simpl; lia). rewrite Hd.
      cbn [tasks_from staggered length]. unfold after. cbn [trace clock].
      rewrite <- !app_assoc. cbn [app length Nat.sub Nat.add].
      reflexivity.
Qed.

(** Whatever the fuel, the loop neither raises nor loses events. *)
Lemma launch_loop_quiet (fuel i : nat) (tasks : list task) (st : state) :
  ∃ r st' evs,
    launch_loop w fuel a keys i tasks st = (Ok r, st')
    ∧ trace st' = trace st ++ evs.
Proof.
  revert i tasks st. induction fuel as [|fuel IH]; intros i tasks st.
  - exists None, st, []. by rewrite app_nil_r.
  - cbn [launch_loop]. destruct (length keys <=? i)%nat eqn:Hi.
    + exists (Some tasks), st, []. by rewrite app_nil_r.
    + apply Nat.leb_gt in Hi.
      destruct (lookup_lt_is_Some_2 keys i Hi) as [k Hk]. rewrite Hk.
      unfold mbind at 1 2, M_bind at 1 2, bind at 1 2. unfold emit at 1.
      destruct (Z.of_nat i <? Z.of_nat (length keys) - 1).
      * unfold mbind at 1, M_bind at 1, bind at 1.
        rewrite randint_run by done.
        unfold_ops. cbn [trace clock after].
        edestruct IH as (r & st' & evs & Hl & Ht). rewrite Hl.
        eexists _, _, _. split; [done|]. rewrite Ht. cbn [trace].
        by rewrite app_nil_r, <- !app_assoc.
      * unfold mret at 1, M_ret at 1, ret at 1.
        edestruct IH as (r & st' & evs & Hl & Ht). rewrite Hl.
        eexists _, _, _. split; [done|]. rewrite Ht. cbn [trace].
        by rewrite <- !app_assoc.
Qed.

End LaunchFacts.

Lemma main_async_bad_range (w : World) (fuel : nat) (a : args)
    (environ : list (string * string)) (st : state) :
  downtime_min a > downtime_max a →
  main_async w fuel a environ st = (Raise (SystemExit MsgDowntimeRange), st).
Proof.
  intros H. apply Z.gtb_gt in H. unfold main_async. by rewrite H.
Qed.

Lemma main_async_good_range (w : World) (fuel : nat) (a : args)
    (environ : list (string * string)) (st : state) :
  downtime_min a <= downtime_max a →
  main_async w fuel a environ st =
  ((if bool_decide (credentials environ a = [])
    then sys_exit (MsgNoKeys ENV_PREFIX)
    else mret tt);;
   print (MsgFound (length (credentials environ a)));;
   r ← launch_loop w fuel a (credentials environ a) 0 [];
   match r with
   | None => mret None
   | Some tasks => emit (Gather (length tasks));; mret (Some tasks)
   end) (after st [ReadEnviron ENV_PREFIX] 0).
Proof.
  intros H. unfold main_async.
  destruct (downtime_min a >? downtime_max a) eqn:Hgt;
    [apply Z.gtb_gt in Hgt; lia|].
  reflexivity.
Qed.

Lemma tasks_from_length (a : args) (i : nat) (remaining : list string) :
  length (tasks_from a i remaining) = length remaining.
Proof.
  revert i. induction remaining as [|k rest IH]; intros i; [done|].
  simpl. by rewrite IH.
Qed.

(** The whole of [main_async] when it gets as far as launching. *)
Lemma main_async_launches (w : World) (fuel : nat) (a : args)
    (environ : list (string * string)) :
  downtime_min a <= downtime_max a →
  credentials environ a ≠ [] →
  (length (credentials environ a) < fuel)%nat →
  main_async w fuel a environ initial =
  (Ok (Some (tasks_from a 0 (credentials environ a))),
   {| trace :=
        [ ReadEnviron ENV_PREFIX;
          Print Stdout (MsgFound (length (credentials environ a))) ]
        ++ staggered w a 0 0 (credentials environ a)
        ++ [Gather (length (credentials environ a))];
      clock := length (credentials environ a) - 1 |}).
Proof.
  intros Hle Hne Hf. rewrite main_async_good_range by done.
  unfold mbind at 1, M_bind at 1, bind at 1.
  rewrite bool_decide_eq_false_2 by done.
  unfold mret at 1, M_ret at 1, ret at 1.
  unfold mbind at 1, M_bind at 1, bind at 1.
  unfold print at 1, emit at 1.
  unfold mbind at 1, M_bind at 1, bind at 1.
  rewrite launch_loop_run by lia. rewrite drop_0.
  unfold_ops. unfold after. cbn [trace clock initial app].
  rewrite tasks_from_length. cbn [Nat.add]. do 2 f_equal. lia.
Qed.

(** C5.  For a list of N ≥ 1 credentials the launch loop creates N
    tasks, the [i]-th for the [i]-th credential, and sleeps a grace
    period drawn in [30, 45] after each launch but the last, N − 1 times
    in all. *)
Theorem staggered_launch (w : World) (a : args) (keys : list string)
    (fuel : nat) (st : state) :
  keys ≠ [] →
  (length keys < fuel)%nat →
  ∃ evs,
    launch_loop w fuel a keys 0 [] st
    = (Ok (Some (tasks_from a 0 keys)), after st evs (length keys - 1))
    ∧ evs = staggered w a 0 (clock st) keys
    ∧ map task_key (tasks_from a 0 keys) = keys
    ∧ map task_idx (tasks_from a 0 keys) = seq 0 (length keys)
    ∧ count is_task evs = length keys
    ∧ count is_sleep evs = (length keys - 1)%nat
    ∧ count is_grace_sleep evs = (length keys - 1)%nat
    ∧ Forall (sleeps_in_range (downtime_min a) (downtime_max a)) evs.
Proof.
  intros Hne Hf. eexists. split; [|split; [reflexivity|]].
  - rewrite launch_loop_run by lia. by rewrite drop_0.
  - destruct (tasks_from_keys a 0 keys) as [Hk Hi].
    destruct (staggered_sleeps w a 0 (clock st) keys) as [Hs Hg].
    repeat split; try done.
    + apply staggered_tasks.
    + apply staggered_in_range.
Qed.

Lemma staggered_launch_witness :
  ∃ evs,
    launch_loop calm 4
      {| key := None; cmd := "sleep 1";
         downtime_min := 30; downtime_max := 45 |}
      ["key-a"; "key-b"; "key-c"] 0 [] initial
    = (Ok (Some (tasks_from
                   {| key := None; cmd := "sleep 1";
                      downtime_min := 30; downtime_max := 45 |}
                   0 ["key-a"; "key-b"; "key-c"])),
       after initial evs 2)
    ∧ count is_task evs = 3%nat
    ∧ count is_grace_sleep evs = 2%nat.
Proof.
  destruct (staggered_launch calm
              {| key := None; cmd := "sleep 1";
                 downtime_min := 30; downtime_max := 45 |}
              ["key-a"; "key-b"; "key-c"] 4 initial)
    as (evs & Hl & _ & _ & _ & Ht & _ & Hg & _).
  - discriminate.
  - simpl. lia.
  - exists evs. repeat split; assumption.
Defined.

(** C6.  With [--downtime-min] above [--downtime-max] the process exits
    at once with the error message and status 1: the environment is not
    read and no task is created.  Otherwise the check passes and the
    credentials are collected. *)
Theorem downtime_range_checked (w : World) (fuel : nat) (a : args)
    (environ : list (string * string)) :
  (downtime_min a > downtime_max a →
   main_async w fuel a environ initial
   = (Raise (SystemExit MsgDowntimeRange), initial)
   ∧ exit_status (main_async w fuel a environ initial).1 = 1
   ∧ trace (main_async w fuel a environ initial).2 = [])
  ∧ (downtime_min a <= downtime_max a →
     ∃ r st more,
       main_async w fuel a environ initial = (r, st)
       ∧ r ≠ Raise (SystemExit MsgDowntimeRange)
       ∧ trace st = ReadEnviron ENV_PREFIX :: more).
Proof.
  split; intros H.
  - by rewrite main_async_bad_range.
  - rewrite main_async_good_range by done.
    unfold mbind at 1, M_bind at 1, bind at 1.
    destruct (bool_decide (credentials environ a = [])).
    + by eexists _, _, [].
    + unfold mret at 1, M_ret at 1, ret at 1.
      unfold mbind at 1, M_bind at 1, bind at 1.
      unfold print at 1, emit at 1.
      unfold mbind at 1, M_bind at 1, bind at 1.
      edestruct launch_loop_quiet as (r & st' & evs & Hl & Ht).
      rewrite Hl. destruct r as [tasks|].
      * eexists _, _, _. unfold_ops. split; [reflexivity|].
        split; [done|]. cbn [trace]. rewrite Ht. by cbn.
      * eexists _, _, _. unfold_ops. split; [reflexivity|].
        split; [done|]. rewrite Ht. by cbn.
Qed.

Lemma downtime_range_checked_witness :
  main_async calm 3
    {| key := Some ["key-a"]; cmd := "sleep 1";
       downtime_min := 45; downtime_max := 30 |}
    [("E2B_KEY_1", "key-b")] initial
  = (Raise (SystemExit MsgDowntimeRange), initial).
Proof.
  apply (proj1 (downtime_range_checked calm 3
                  {| key := Some ["key-a"]; cmd := "sleep 1";
                     downtime_min := 45; downtime_max := 30 |}
                  [("E2B_KEY_1", "key-b")])).
  simpl. lia.
Defined.

(** C7.  With no credential at all the process exits with a message and
    a status other than 0, and no task is created; with bounds in order
    the message is the one about missing keys. *)
Theorem no_credentials_exits (w : World) (fuel : nat) (a : args)
    (environ : list (string * string)) :
  credentials environ a = [] →
  ∃ m st,
    main_async w fuel a environ initial = (Raise (SystemExit m), st)
    ∧ exit_status (main_async w fuel a environ initial).1 ≠ 0
    ∧ count is_task (trace st) = 0%nat
    ∧ (downtime_min a <= downtime_max a →
       m = MsgNoKeys ENV_PREFIX
       ∧ st = {| trace := [ReadEnviron ENV_PREFIX]; clock := 0 |}).
Proof.
  intros Hk. destruct (Z_le_gt_dec (downtime_min a) (downtime_max a)) as [H|H].
  - rewrite main_async_good_range by done.
    unfold mbind at 1, M_bind at 1, bind at 1.
    rewrite bool_decide_eq_true_2 by done.
    eexists _, _. split; [reflexivity|].
    split; [done | split; [done|]]. by intros _.
  - rewrite main_async_bad_range by done.
    eexists _, _. split; [reflexivity|].
    split; [done | split; [done|]]. lia.
Qed.

Lemma no_credentials_exits_witness :
  ∃ m st,
    main_async calm 3
      {| key := None; cmd := "sleep 1";
         downtime_min := 30; downtime_max := 45 |}
      [("HOME", "/root"); ("E2B_KEY_1", " ")] initial
    = (Raise (SystemExit m), st)
    ∧ count is_task (trace st) = 0%nat.
Proof.
  destruct (no_credentials_exits calm 3
              {| key := None; cmd := "sleep 1";
                 downtime_min := 30; downtime_max := 45 |}
              [("HOME", "/root"); ("E2B_KEY_1", " ")])
    as (m & st & Hm & _ & Ht & _).
  - reflexivity.
  - by exists m, st.
Defined.

(** What [main_async] hands to [asyncio.gather]: tasks that carry the
    command and the bounds of the command line, with the bounds in
    order. *)
Lemma launch_loop_tasks (w : World) (a : args) (keys : list string)
    (fuel i : nat) (tasks ts : list task) (st st' : state) :
  launch_loop w fuel a keys i tasks st = (Ok (Some ts), st') →
  ∃ more,
    ts = tasks ++ more
    ∧ Forall (λ t, task_cmd t = cmd a
                   ∧ task_downtime_min t = downtime_min a
                   ∧ task_downtime_max t = downtime_max a) more.
Proof.
  revert i tasks st. induction fuel as [|fuel IH]; intros i tasks st H.
  - discriminate.
  - cbn [launch_loop] in H. destruct (length keys <=? i)%nat.
    + injection H as <- _. exists []. by rewrite app_nil_r.
    + destruct (keys !! i) as [k|]; [|discriminate].
      unfold mbind at 1 2, M_bind at 1 2, bind at 1 2 in H.
      unfold emit at 1 in H.
      destruct (Z.of_nat i <? Z.of_nat (length keys) - 1).
      * unfold mbind at 1, M_bind at 1, bind at 1 in H.
        rewrite randint_run in H by done.
        unfold_ops. cbn [trace clock after] in H.
        apply IH in H as (more & -> & Hm).
        eexists. rewrite <- app_assoc. split; [reflexivity|].
        by constructor.
      * unfold mret at 1, M_ret at 1, ret at 1 in H.
        apply IH in H as (more & -> & Hm).
        eexists. rewrite <- app_assoc. split; [reflexivity|].
        by constructor.
Qed.

Lemma launched_bounds (w : World) (fuel : nat) (a : args)
    (environ : list (string * string)) (st st' : state)
    (tasks : list task) (t : task) :
  main_async w fuel a environ st = (Ok (Some tasks), st') →
  t ∈ tasks →
  task_downtime_min t <= task_downtime_max t.
Proof.
  intros H Ht.
  destruct (Z_le_gt_dec (downtime_min a) (downtime_max a)) as [Hle|Hgt];
    [|by rewrite main_async_bad_range in H].
  rewrite main_async_good_range in H by done.
  unfold mbind at 1, M_bind at 1, bind at 1 in H.
  destruct (bool_decide (credentials environ a = [])); [discriminate|].
  unfold mret at 1, M_ret at 1, ret at 1 in H.
  unfold mbind at 1, M_bind at 1, bind at 1 in H.
  unfold print at 1, emit at 1 in H.
  unfold mbind at 1, M_bind at 1, bind at 1 in H.
  destruct (launch_loop _ _ _ _ _ _ _) as [[[ts|]|e] st2] eqn:Hl;
    try discriminate.
  apply launch_loop_tasks in Hl as (more & -> & Hm).
  unfold_ops. simpl in H. injection H as <- _.
  rewrite Forall_forall in Hm.
  destruct (Hm t Ht) as (_ & -> & ->). done.
Qed.

(** C9, as stated, fails: clean runs do not keep a supervisor from
    abandoning its key.  Here every run phase finishes without raising,
    and after the first one the connection phase uses up its ten
    attempts. *)
Lemma clean_run_then_abandoned :
  runs_cleanly connects_once "sleep 1"
  ∧ ∃ st,
      run_sandbox_lifecycle connects_once "e2b_0123456789" "sleep 1" 30 45 2
        initial
      = (Ok Returned, st)
      ∧ count is_normal_sleep (trace st) = 1%nat
      ∧ count is_create (trace st) = 11%nat
      ∧ count is_abandon_line (trace st) = 1%nat.
Proof.
  split.
  - intros st. by apply run_phase_answers with "sbx" quiet_process.
  - eexists. split; [vm_compute; reflexivity|]. by repeat split.
Qed.

(** C9, amended.  A run phase that finishes without raising, whatever
    the exit code, never makes a supervisor that [main_async] has
    launched abandon its key: the pass ends with the normal cooldown,
    drawn within the bounds, and the loop goes on with the first
    connection attempt of a new pass.  When moreover every connection
    phase ends with a session, this goes on for every number of passes:
    after [n] of them the supervisor is still in the loop, has slept
    [n] normal cooldowns and has printed no abandonment line.  A later
    connection phase may still give the key up. *)
Theorem clean_run_loops_back (w0 w : World) (fuel0 : nat) (a : args)
    (environ : list (string * string)) (st0 st0' : state)
    (tasks : list task) (t : task) :
  main_async w0 fuel0 a environ st0 = (Ok (Some tasks), st0') →
  t ∈ tasks →
  (∀ st st1 st2 sbx fuel,
     connect_loop w (task_key t) (seq 0 MAX_CONNECTION_ATTEMPTS) st
     = (Ok (LoopEnd (Some sbx)), st1) →
     run_phase w (task_cmd t) st1 = (Ok tt, st2) →
     let d := drawn w (task_downtime_min t) (task_downtime_max t)
                (clock st2) in
     let st3 :=
       after st2 [Print Stdout (MsgNormalCooldown d); Sleep Normal d] 1 in
     task_downtime_min t <= d <= task_downtime_max t
     ∧ run_sandbox_lifecycle w (task_key t) (task_cmd t)
         (task_downtime_min t) (task_downtime_max t) (S fuel) st
       = run_sandbox_lifecycle w (task_key t) (task_cmd t)
           (task_downtime_min t) (task_downtime_max t) fuel st3
     ∧ ∃ more,
         trace (run_sandbox_lifecycle w (task_key t) (task_cmd t)
                  (task_downtime_min t) (task_downtime_max t)
                  (S (S fuel)) st).2
         = trace st3
           ++ [ Print Stdout
                  (MsgAttempting (Text.last_chars 6 (task_key t)) 1
                     MAX_CONNECTION_ATTEMPTS);
                CallCreate (task_key t) ]
           ++ more)
  ∧ (always_connects w (task_key t) →
     runs_cleanly w (task_cmd t) →
     ∀ n, ∃ st,
       run_sandbox_lifecycle w (task_key t) (task_cmd t)
         (task_downtime_min t) (task_downtime_max t) n initial
       = (Ok StillRunning, st)
       ∧ count is_normal_sleep (trace st) = n
       ∧ count is_abandon_line (trace st) = 0%nat).
Proof.
  intros Hm Ht.
  pose proof (launched_bounds _ _ _ _ _ _ _ _ Hm Ht) as Hle.
  split.
  - intros st st1 st2 sbx fuel Hc Hr d st3.
    assert (Hstep : ∀ n,
      run_sandbox_lifecycle w (task_key t) (task_cmd t)
        (task_downtime_min t) (task_downtime_max t) (S n) st
      = run_sandbox_lifecycle w (task_key t) (task_cmd t)
          (task_downtime_min t) (task_downtime_max t) n st3).
    { intros n. rewrite lifecycle_step.
      by rewrite (iteration_clean _ _ _ _ _ _ _ _ _ Hc Hr Hle). }
    split; [by apply drawn_in_range | split; [apply Hstep|]].
    rewrite Hstep. apply lifecycle_starts_connecting.
  - intros Hc Hr n.
    destruct (clean_cycles w (task_key t) (task_cmd t) (task_downtime_min t)
                (task_downtime_max t) Hle Hc Hr n initial)
      as (st & Hl & Hn & Ha).
    exists st. split; [done|]. rewrite Hn, Ha. unfold count. simpl.
    split; [lia | done].
Qed.

Lemma clean_run_loops_back_witness :
  let t := {| task_key := "key-b"; task_cmd := "sleep 1"; task_idx := 1;
              task_downtime_min := 30; task_downtime_max := 45 |} in
  let st1 := {| trace := successful_attempt "key-b" 0; clock := 1 |} in
  let st2 := after st1 (answered_run "sleep 1" "sbx" quiet_process) 4 in
  run_sandbox_lifecycle connects_once "key-b" "sleep 1" 30 45 1 initial
  = run_sandbox_lifecycle connects_once "key-b" "sleep 1" 30 45 0
      (after st2 [Print Stdout (MsgNormalCooldown 35); Sleep Normal 35] 1).
Proof.
  intros t st1 st2.
  refine (proj1 (proj2 (proj1
            (clean_run_loops_back calm connects_once 3
               {| key := Some ["key-b"]; cmd := "sleep 1";
                  downtime_min := 30; downtime_max := 45 |}
               [("E2B_KEY_1", "key-a")] initial
               {| trace :=
                    [ ReadEnviron "E2B_KEY_"; Print Stdout (MsgFound 2);
                      CreateTask {| task_key := "key-a";
                                    task_cmd := "sleep 1"; task_idx := 0;
                                    task_downtime_min := 30;
                                    task_downtime_max := 45 |};
                      Print Stdout (MsgGracePeriod 30); Sleep Grace 30;
                      CreateTask t; Gather 2 ];
                  clock := 1 |}
               [ {| task_key := "key-a"; task_cmd := "sleep 1";
                    task_idx := 0; task_downtime_min := 30;
                    task_downtime_max := 45 |}; t ]
               t eq_refl _)
            initial st1 st2 0%nat 0%nat eq_refl eq_refl))).
  apply elem_of_cons. right. apply elem_of_cons. by left.
Defined.

(* ===================================================================== *)
(** ** Connection phases that fail for a while                            *)
(* ===================================================================== *)

Section FailingPrefix.

Variable w : World.
Variable key : string.

Let fails_retryably (i : nat) : Prop :=
  ∃ text,
    sandbox_create w key (2 * i) = inl text ∧ ¬ names_terminal_phrase text.

(** After [j] attempts that failed with texts naming no terminal phrase
    the loop is at attempt [j], [2 * j] answers into the world. *)
Lemma connect_loop_prefix (j : nat) :
  (j < MAX_CONNECTION_ATTEMPTS)%nat →
  (∀ i, (i < j)%nat → fails_retryably i) →
  connect_loop w key (seq 0 MAX_CONNECTION_ATTEMPTS) initial =
  connect_loop w key (seq j (MAX_CONNECTION_ATTEMPTS - j))
    {| trace := flat_map (failed_attempt w key) (seq 0 j);
       clock := 2 * j |}.
Proof.
  induction j as [|j IH]; intros Hj Hf; [done|].
  rewrite IH by (try lia; intros i Hi; apply Hf; lia).
  destruct (Hf j) as (text & Hc & Hn); [lia|].
  rewrite (seq_S j 0), flat_map_app. cbn [flat_map Nat.add].
  rewrite app_nil_r.
  replace (MAX_CONNECTION_ATTEMPTS - j)%nat
    with (S (MAX_CONNECTION_ATTEMPTS - S j)) by lia.
  cbn [seq].
  rewrite (connect_loop_raise w key j _ _ text) by exact Hc.
  rewrite connect_handler_retry by (try done; lia).
  rewrite after_after. unfold after. cbn [trace clock].
  f_equal. f_equal; [|lia].
  f_equal.
  unfold failed_attempt, create_error. rewrite Hc. cbn [app str].
  by replace (2 * j + 1)%nat with (1 + 2 * j)%nat by lia.
Qed.

End FailingPrefix.

(** X1.  A connection phase whose first [j] attempts fail with a text
    that names no terminal phrase and whose next attempt is answered
    ends with that session: [j] cooldowns have been slept, one after
    each failure, and attempt [j + 1] is the last one made. *)
Theorem connect_after_failures (w : World) (key : string) (j sbx : nat) :
  (j < MAX_CONNECTION_ATTEMPTS)%nat →
  (∀ i, (i < j)%nat →
     ∃ text,
       sandbox_create w key (2 * i) = inl text
       ∧ ¬ names_terminal_phrase text) →
  sandbox_create w key (2 * j) = inr sbx →
  connect_loop w key (seq 0 MAX_CONNECTION_ATTEMPTS) initial =
  (Ok (LoopEnd (Some sbx)),
   {| trace := flat_map (failed_attempt w key) (seq 0 j)
               ++ successful_attempt key j;
      clock := 2 * j + 1 |}).
Proof.
  intros Hj Hf Hc. rewrite (connect_loop_prefix w key j) by done.
  replace (MAX_CONNECTION_ATTEMPTS - j)%nat
    with (S (MAX_CONNECTION_ATTEMPTS - S j)) by lia.
  cbn [seq]. rewrite (connect_loop_ok w key j _ _ sbx) by exact Hc.
  unfold after. cbn [trace clock]. do 2 f_equal. lia.
Qed.

Lemma connect_after_failures_witness :
  connect_loop (flaky 3 "connection timed out") "e2b_0123456789"
    (seq 0 MAX_CONNECTION_ATTEMPTS) initial
  = (Ok (LoopEnd (Some 6%nat)),
     {| trace :=
          flat_map (failed_attempt (flaky 3 "connection timed out")
                      "e2b_0123456789") (seq 0 3)
          ++ successful_attempt "e2b_0123456789" 3;
        clock := 2 * 3 + 1 |}).
Proof.
  apply (connect_after_failures (flaky 3 "connection timed out")
           "e2b_0123456789" 3 6).
  - unfold MAX_CONNECTION_ATTEMPTS. lia.
  - intros i Hi. exists "connection timed out". split.
    + simpl. destruct (Nat.ltb_spec (i + (i + 0)) 6); [done | lia].
    + apply terminal_test_false. reflexivity.
  - reflexivity.
Defined.

(** X2.  A connection phase whose first [j] attempts fail with a text
    that names no terminal phrase and whose next attempt fails with one
    that does is given up at that attempt: the supervisor returns, after
    [j] cooldowns and [j + 1] attempts, with the rest of the budget
    unused. *)
Theorem blocked_after_failures (w : World) (key cmd : string)
    (downtime_min downtime_max : Z) (j fuel : nat) (text : string) :
  (j < MAX_CONNECTION_ATTEMPTS)%nat →
  (∀ i, (i < j)%nat →
     ∃ text',
       sandbox_create w key (2 * i) = inl text'
       ∧ ¬ names_terminal_phrase text') →
  sandbox_create w key (2 * j) = inl text →
  names_terminal_phrase text →
  ∃ tr,
    run_sandbox_lifecycle w key cmd downtime_min downtime_max (S fuel) initial
    = (Ok Returned, {| trace := tr; clock := 2 * j + 1 |})
    ∧ tr = flat_map (failed_attempt w key) (seq 0 j) ++ blocked_attempt key j
    ∧ count is_create tr = S j
    ∧ count is_sleep tr = j.
Proof.
  intros Hj Hf Hc Ht. eexists. split; [|split; [reflexivity|]].
  - rewrite lifecycle_step.
    erewrite iteration_conn_return; [reflexivity|].
    rewrite (connect_loop_prefix w key j) by done.
    replace (MAX_CONNECTION_ATTEMPTS - j)%nat
      with (S (MAX_CONNECTION_ATTEMPTS - S j)) by lia.
    cbn [seq]. rewrite (connect_loop_raise w key j _ _ text) by exact Hc.
    rewrite connect_handler_terminal by done.
    rewrite after_after. unfold after. cbn [trace clock].
    do 2 f_equal. lia.
  - rewrite !count_app. clear. split.
    + replace (count is_create (blocked_attempt key j)) with 1%nat by done.
      induction j as [|j IH]; [done|].
      rewrite seq_S, flat_map_app, count_app in *. cbn [flat_map].
      rewrite app_nil_r.
      replace (count is_create (failed_attempt w key (0 + j))) with 1%nat
        by done.
      lia.
    + replace (count is_sleep (blocked_attempt key j)) with 0%nat by done.
      induction j as [|j IH]; [done|].
      rewrite seq_S, flat_map_app, count_app in *. cbn [flat_map].
      rewrite app_nil_r.
      replace (count is_sleep (failed_attempt w key (0 + j))) with 1%nat
        by done.
      lia.
Qed.

Lemma blocked_after_failures_witness :
  ∃ tr,
    run_sandbox_lifecycle (refuses 2 "connection timed out" "Team blocked")
      "e2b_0123456789" "sleep 1" 30 45 4 initial
    = (Ok Returned, {| trace := tr; clock := 2 * 2 + 1 |})
    ∧ count is_create tr = 3%nat
    ∧ count is_sleep tr = 2%nat.
Proof.
  destruct (blocked_after_failures
              (refuses 2 "connection timed out" "Team blocked")
              "e2b_0123456789" "sleep 1" 30 45 2 3 "Team blocked")
    as (tr & Hr & _ & Hc & Hs).
  - unfold MAX_CONNECTION_ATTEMPTS. lia.
  - intros i Hi. exists "connection timed out". split.
    + simpl. destruct (Nat.ltb_spec (i + (i + 0)) 4); [done | lia].
    + apply terminal_test_false. reflexivity.
  - reflexivity.
  - apply terminal_test. reflexivity.
  - exists tr. by repeat split.
Defined.

(* ===================================================================== *)
(** ** Run errors of the other kinds, and bounds out of order             *)
(* ===================================================================== *)

(** X3.  A run-phase error whose text names neither the lost session nor
    a terminal phrase does not end the supervisor: it prints the error
    on stderr and the pause on stdout, sleeps a cooldown of [300, 600]
    seconds, and goes through the loop again, beginning with the first
    connection attempt for the same key. *)
Theorem unexpected_error_resumes (w : World) (key cmd : string)
    (downtime_min downtime_max : Z) (text : string)
    (st st1 st2 : state) (sbx fuel : nat) :
  ¬ names_lost_session text →
  ¬ names_terminal_phrase text →
  connect_loop w key (seq 0 MAX_CONNECTION_ATTEMPTS) st
  = (Ok (LoopEnd (Some sbx)), st1) →
  run_phase w cmd st1 = (Raise (Exception text), st2) →
  let d := drawn w 300 600 (clock st2) in
  let st3 :=
    after st2 [ Print Stderr (MsgUnexpected text);
                Print Stdout (MsgPausing d);
                Sleep UnexpectedError d ] 1 in
  300 <= d <= 600
  ∧ run_sandbox_lifecycle w key cmd downtime_min downtime_max (S fuel) st
    = run_sandbox_lifecycle w key cmd downtime_min downtime_max fuel st3
  ∧ ∃ more,
      trace (run_sandbox_lifecycle w key cmd downtime_min downtime_max
               (S (S fuel)) st).2
      = trace st3
        ++ [ Print Stdout (MsgAttempting (Text.last_chars 6 key) 1
                             MAX_CONNECTION_ATTEMPTS);
             CallCreate key ]
        ++ more.
Proof.
  intros Hl Ht Hc Hr d st3.
  assert (Hstep : ∀ n,
    run_sandbox_lifecycle w key cmd downtime_min downtime_max (S n) st
    = run_sandbox_lifecycle w key cmd downtime_min downtime_max n st3).
  { intros n.
    rewrite lifecycle_step, (iteration_raise _ _ _ _ _ _ _ _ _ _ Hc Hr).
    by rewrite run_handler_unexpected. }
  split; [by apply drawn_in_range | split; [apply Hstep|]].
  rewrite Hstep. apply lifecycle_starts_connecting.
Qed.

Lemma unexpected_error_resumes_witness :
  let w := wait_raises "connection reset by peer" in
  let st1 := {| trace := successful_attempt "e2b_0123456789" 0;
                clock := 1 |} in
  let st2 := after st1 [ Print Stdout MsgLaunching; CallCommandsRun "sleep 1";
                         CallGetInfo; Print Stdout (MsgSandboxId "sbx");
                         CallWait; CallRelease ] 4 in
  run_sandbox_lifecycle w "e2b_0123456789" "sleep 1" 30 45 1 initial
  = run_sandbox_lifecycle w "e2b_0123456789" "sleep 1" 30 45 0
      (after st2 [ Print Stderr (MsgUnexpected "connection reset by peer");
                   Print Stdout (MsgPausing 305);
                   Sleep UnexpectedError 305 ] 1).
Proof.
  intros w st1 st2.
  assert (Hl : ¬ names_lost_session "connection reset by peer")
    by (apply lost_session_test_false; reflexivity).
  assert (Ht : ¬ names_terminal_phrase "connection reset by peer")
    by (apply terminal_test_false; reflexivity).
  apply (proj1 (proj2 (unexpected_error_resumes w
            "e2b_0123456789" "sleep 1" 30 45 "connection reset by peer"
            initial st1 st2 0 0 Hl Ht eq_refl eq_refl))).
Defined.

(** X4.  Called with [downtime_min] above [downtime_max], a supervisor
    that gets through a run without an exception dies of the
    [ValueError] of [random.randint]: nothing catches it, no cooldown is
    slept and no further pass is made. *)
Theorem reversed_bounds_crash (w : World) (key cmd : string)
    (downtime_min downtime_max : Z) (st st1 st2 : state) (sbx fuel : nat) :
  downtime_max < downtime_min →
  connect_loop w key (seq 0 MAX_CONNECTION_ATTEMPTS) st
  = (Ok (LoopEnd (Some sbx)), st1) →
  run_phase w cmd st1 = (Ok tt, st2) →
  ∃ text,
    run_sandbox_lifecycle w key cmd downtime_min downtime_max (S fuel) st
    = (Raise (ValueError text), st2).
Proof.
  intros Hlt Hc Hr. eexists.
  by rewrite lifecycle_step, (iteration_crash _ _ _ _ _ _ _ _ _ Hc Hr Hlt).
Qed.

Lemma reversed_bounds_crash_witness :
  ∃ text,
    run_sandbox_lifecycle calm "e2b_0123456789" "sleep 1" 45 30 5 initial
    = (Raise (ValueError text),
       {| trace := successful_attempt "e2b_0123456789" 0
                   ++ [ Print Stdout MsgLaunching; CallCommandsRun "sleep 1";
                        CallGetInfo; Print Stdout (MsgSandboxId "sbx");
                        CallWait; Print Stdout MsgCompleted; CallRelease ];
          clock := 5 |}).
Proof.
  apply (reversed_bounds_crash calm "e2b_0123456789" "sleep 1" 45 30
           initial
           {| trace := successful_attempt "e2b_0123456789" 0; clock := 1 |}
           _ 0 4).
  - lia.
  - reflexivity.
  - reflexivity.
Defined.

(* ===================================================================== *)
(** ** What the supervisor never does                                     *)
(* ===================================================================== *)

Lemma terminal_cases (text : string) :
  names_terminal_phrase text ∨ ¬ names_terminal_phrase text.
Proof.
  destruct (Text.str_in "team blocked" (Text.lower text)
            || Text.str_in "suspended" (Text.lower text)) eqn:H.
  - left. by apply terminal_test.
  - right. by apply terminal_test_false.
Qed.

Lemma lost_session_cases (text : string) :
  names_lost_session text ∨ ¬ names_lost_session text.
Proof.
  destruct (Text.str_in "the sandbox was not found" (Text.lower text)) eqn:H.
  - left. by apply lost_session_test.
  - right. by apply lost_session_test_false.
Qed.

Section NoEscape.

Variable w : World.
Variables (key cmd : string) (downtime_min downtime_max : Z).

(** The connection loop catches whatever the creation call raises. *)
Lemma connect_loop_total (attempts : list nat) (st : state) :
  ∃ c st', connect_loop w key attempts st = (Ok c, st').
Proof.
  revert st. induction attempts as [|attempt rest IH]; intros st.
  - by eexists _, _.
  - destruct (sandbox_create w key (clock st)) as [text|sbx] eqn:Hc.
    + rewrite (connect_loop_raise _ _ _ _ _ _ Hc).
      destruct (terminal_cases text) as [Ht|Ht].
      * rewrite connect_handler_terminal by done. by eexists _, _.
      * destruct (attempt <? MAX_CONNECTION_ATTEMPTS - 1)%nat eqn:Hlt.
        -- apply Nat.ltb_lt in Hlt.
           rewrite connect_handler_retry by done. apply IH.
        -- apply Nat.ltb_ge in Hlt.
           rewrite connect_handler_give_up by done. by eexists _, _.
    + rewrite (connect_loop_ok _ _ _ _ _ _ Hc). by eexists _, _.
Qed.

(** What the run phase raises is an [Exception] of the provider. *)
Lemma run_body_raises (st st' : state) (e : exn) :
  run_body w cmd st = (Raise e, st') → ∃ text, e = Exception text.
Proof.
  unfold run_body.
  unfold mbind, M_bind, bind, mret, M_ret, ret, print, emit, ask, lift,
    raise.
  simpl.
  destruct (commands_run w _) as [t|[]]; simpl;
    [intros; simplify_eq; by eexists|].
  destruct (get_info w _) as [t|id]; simpl;
    [intros; simplify_eq; by eexists|].
  destruct (proc_wait w _) as [t|proc]; simpl;
    [intros; simplify_eq; by eexists|].
  by destruct (exit_code proc =? 0), (Text.truthy (stdout proc)),
    (Text.truthy (stderr proc)).
Qed.

Lemma run_phase_raises (st st' : state) (e : exn) :
  run_phase w cmd st = (Raise e, st') → ∃ text, e = Exception text.
Proof.
  unfold run_phase. destruct (run_body w cmd st) as [r st1] eqn:Hb.
  unfold mbind, M_bind, bind, emit, ask. simpl.
  destruct (sandbox_release w (clock st1)) as [text|].
  - intros; simplify_eq; by eexists.
  - intros; simplify_eq. by eapply run_body_raises.
Qed.

Lemma run_handler_total (e : exn) (st : state) :
  ∃ c st', run_handler w key e st = (Ok c, st').
Proof.
  destruct (lost_session_cases (str e)) as [Hl|Hl].
  - rewrite run_handler_lost by done. by eexists _, _.
  - destruct (terminal_cases (str e)) as [Ht|Ht].
    + rewrite run_handler_terminal by done. by eexists _, _.
    + rewrite run_handler_unexpected by done. by eexists _, _.
Qed.

Lemma iteration_total (st : state) :
  downtime_min <= downtime_max →
  ∃ c st', iteration w key cmd downtime_min downtime_max st = (Ok c, st').
Proof.
  intros Hle.
  destruct (connect_loop_total (seq 0 MAX_CONNECTION_ATTEMPTS) st)
    as ([[sbx|]|] & st1 & Hc).
  - destruct (run_phase w cmd st1) as [[[]|e] st2] eqn:Hr.
    + rewrite (iteration_clean _ _ _ _ _ _ _ _ _ Hc Hr Hle).
      by eexists _, _.
    + destruct (run_phase_raises _ _ _ Hr) as [text ->].
      rewrite (iteration_raise _ _ _ _ _ _ _ _ _ _ Hc Hr).
      apply run_handler_total.
  - unfold iteration, mbind, M_bind, bind. rewrite Hc. by eexists _, _.
  - rewrite (iteration_conn_return _ _ _ _ _ _ _ Hc). by eexists _, _.
Qed.

End NoEscape.

(** X5.  With its bounds in order a supervisor never dies of an
    exception: whatever the provider raises, in the connection phase or
    in the run phase, is caught and handled inside the loop, so the
    coroutine either returns or is still looping. *)
Theorem provider_errors_never_escape (w : World) (key cmd : string)
    (downtime_min downtime_max : Z) (fuel : nat) (st : state) :
  downtime_min <= downtime_max →
  ∃ o st',
    run_sandbox_lifecycle w key cmd downtime_min downtime_max fuel st
    = (Ok o, st').
Proof.
  intros Hle. revert st. induction fuel as [|fuel IH]; intros st.
  - by eexists _, _.
  - rewrite lifecycle_step.
    destruct (iteration_total w key cmd downtime_min downtime_max st Hle)
      as (c & st1 & ->).
    destruct c; [apply IH | by eexists _, _ | by eexists _, _].
Qed.

Lemma provider_errors_never_escape_witness :
  ∃ o st',
    run_sandbox_lifecycle (wait_raises "internal error") "e2b_0123456789"
      "sleep 1" 30 45 3 initial
    = (Ok o, st').
Proof.
  apply (provider_errors_never_escape (wait_raises "internal error")
           "e2b_0123456789" "sleep 1" 30 45 3 initial).
  lia.
Defined.

Lemma announces_last (l : list event) (m : message) :
  is_abandon_msg m = true → announces_abandonment (l ++ [Print Stderr m]).
Proof. intros H. by exists l, m. Qed.

Lemma announces_last_but_one (l : list event) (x : event) (m : message) :
  is_abandon_msg m = true →
  announces_abandonment (l ++ [x; Print Stderr m]).
Proof. intros H. exists (l ++ [x]), m. by rewrite <- app_assoc. Qed.

Section Announced.

Variable w : World.
Variables (key cmd : string) (downtime_min downtime_max : Z).

(** A connection loop over what is left of the budget is left by a
    [return] only after an abandonment line, and with a session
    otherwise. *)
Lemma connect_loop_exit (n a : nat) (st st' : state) (c : connect_exit) :
  (a + n = MAX_CONNECTION_ATTEMPTS)%nat →
  connect_loop w key (seq a n) st = (Ok c, st') →
  match c with
  | ConnReturn => announces_abandonment (trace st')
  | LoopEnd None => n = 0%nat
  | LoopEnd (Some _) => True
  end.
Proof.
  revert a st. induction n as [|n IH]; intros a st Han H.
  - by injection H as <- _.
  - cbn [seq] in H.
    destruct (sandbox_create w key (clock st)) as [text|sbx] eqn:Hc.
    + rewrite (connect_loop_raise _ _ _ _ _ _ Hc) in H.
      destruct (terminal_cases text) as [Ht|Ht].
      * rewrite connect_handler_terminal in H by done.
        injection H as <- <-. by apply announces_last.
      * destruct (a <? MAX_CONNECTION_ATTEMPTS - 1)%nat eqn:Hlt.
        -- apply Nat.ltb_lt in Hlt.
           rewrite connect_handler_retry in H by done.
           apply IH in H; [|lia].
           destruct c as [[sbx|]|]; [done | lia | done].
        -- apply Nat.ltb_ge in Hlt.
           rewrite connect_handler_give_up in H by done.
           injection H as <- <-. by apply announces_last_but_one.
    + rewrite (connect_loop_ok _ _ _ _ _ _ Hc) in H. by injection H as <- _.
Qed.

Lemma run_handler_exit (e : exn) (st st' : state) (c : control) :
  run_handler w key e st = (Ok c, st') →
  c = Continue ∨ (c = Break ∧ announces_abandonment (trace st')).
Proof.
  intros H. destruct (lost_session_cases (str e)) as [Hl|Hl].
  - rewrite run_handler_lost in H by done. injection H as <- _. by left.
  - destruct (terminal_cases (str e)) as [Ht|Ht].
    + rewrite run_handler_terminal in H by done.
      injection H as <- <-. right. split; [done|]. by apply announces_last.
    + rewrite run_handler_unexpected in H by done.
      injection H as <- _. by left.
Qed.

Lemma iteration_exit (st st' : state) (c : control) :
  iteration w key cmd downtime_min downtime_max st = (Ok c, st') →
  c = Continue ∨ announces_abandonment (trace st').
Proof.
  intros H.
  destruct (connect_loop_total w key (seq 0 MAX_CONNECTION_ATTEMPTS) st)
    as (x & st1 & Hc).
  pose proof (connect_loop_exit MAX_CONNECTION_ATTEMPTS 0 _ _ _ eq_refl Hc)
    as Hx.
  destruct x as [[sbx|]|]; [|done|].
  - destruct (run_phase w cmd st1) as [[[]|e] st2] eqn:Hr.
    + destruct (Z_le_gt_dec downtime_min downtime_max) as [Hle|Hgt].
      * rewrite (iteration_clean _ _ _ _ _ _ _ _ _ Hc Hr Hle) in H.
        injection H as <- _. by left.
      * rewrite (iteration_crash _ _ _ _ _ _ _ _ _ Hc Hr) in H by lia.
        discriminate.
    + destruct (run_phase_raises _ _ _ _ _ Hr) as [text ->].
      rewrite (iteration_raise _ _ _ _ _ _ _ _ _ _ Hc Hr) in H.
      apply run_handler_exit in H as [?|[_ ?]]; [by left | by right].
  - rewrite (iteration_conn_return _ _ _ _ _ _ _ Hc) in H.
    injection H as _ <-. by right.
Qed.

End Announced.

(** X6.  A supervisor never returns in silence: when the coroutine
    returns, the last thing it did was to print one of the two
    abandonment lines on stderr. *)
Theorem return_is_announced (w : World) (key cmd : string)
    (downtime_min downtime_max : Z) (fuel : nat) (st st' : state) :
  run_sandbox_lifecycle w key cmd downtime_min downtime_max fuel st
  = (Ok Returned, st') →
  announces_abandonment (trace st').
Proof.
  revert st. induction fuel as [|fuel IH]; intros st H; [discriminate|].
  rewrite lifecycle_step in H.
  destruct (iteration w key cmd downtime_min downtime_max st)
    as [[c|e] st1] eqn:Hi; [|discriminate].
  destruct (iteration_exit _ _ _ _ _ _ _ _ Hi) as [->|Ha].
  - by apply IH in H.
  - destruct c; [by apply IH in H | |]; by injection H as <-.
Qed.

Lemma return_is_announced_witness :
  announces_abandonment
    (trace (run_sandbox_lifecycle (wait_raises "Team Blocked")
              "e2b_0123456789" "sleep 1" 30 45 3 initial).2).
Proof.
  apply (return_is_announced (wait_raises "Team Blocked")
           "e2b_0123456789" "sleep 1" 30 45 3 initial).
  reflexivity.
Defined.

(* ===================================================================== *)
(** ** How many connection attempts a supervisor makes                    *)
(* ===================================================================== *)

Section AttemptBound.

Variable w : World.
Variables (key cmd : string) (downtime_min downtime_max : Z).

Let no_create (e : event) : Prop := is_create e = false.

Lemma count_after (f : event → bool) (st : state) (evs : list event)
    (n : nat) :
  count f (trace (after st evs n)) = (count f (trace st) + count f evs)%nat.
Proof. unfold after. cbn [trace]. apply count_app. Qed.

(** A connection loop calls the provider at most once per attempt. *)
Lemma connect_loop_creates (attempts : list nat) (st : state) :
  (count is_create (trace (connect_loop w key attempts st).2)
   <= count is_create (trace st) + length attempts)%nat.
Proof.
  revert st. induction attempts as [|attempt rest IH]; intros st.
  - simpl. lia.
  - destruct (sandbox_create w key (clock st)) as [text|sbx] eqn:Hc.
    + rewrite (connect_loop_raise _ _ _ _ _ _ Hc).
      destruct (terminal_cases text) as [Ht|Ht].
      * rewrite connect_handler_terminal by done. cbn [snd].
        rewrite !count_after. unfold count. simpl. lia.
      * destruct (attempt <? MAX_CONNECTION_ATTEMPTS - 1)%nat eqn:Hlt.
        -- apply Nat.ltb_lt in Hlt.
           rewrite connect_handler_retry by done.
           etrans; [apply IH|]. rewrite !count_after.
           unfold count. simpl. lia.
        -- apply Nat.ltb_ge in Hlt.
           rewrite connect_handler_give_up by done. cbn [snd].
           rewrite !count_after. unfold count. simpl. lia.
    + rewrite (connect_loop_ok _ _ _ _ _ _ Hc). cbn [snd].
      rewrite count_after. unfold count. simpl. lia.
Qed.

(** The run phase and what follows it in a pass call the provider's
    creation no more. *)
Lemma run_phase_no_create : keeps no_create (run_phase w cmd).
Proof.
  assert (Hb : keeps no_create (run_body w cmd)).
  { unfold run_body.
    repeat first [ keeps_step
                 | match goal with |- keeps _ (if ?b then _ else _) =>
                     destruct b end ];
      done. }
  intros st. destruct (Hb st) as (evs & Ht & Hp).
  unfold run_phase. destruct (run_body w cmd st) as [r st1].
  unfold_ops. simpl in *.
  exists (evs ++ [CallRelease]). split.
  - destruct (sandbox_release w (clock st1)); simpl;
      by rewrite Ht, app_assoc.
  - apply Forall_app. split; [done|]. by constructor.
Qed.

Lemma iteration_creates (st : state) :
  (count is_create
     (trace (iteration w key cmd downtime_min downtime_max st).2)
   <= count is_create (trace st) + MAX_CONNECTION_ATTEMPTS)%nat.
Proof.
  pose proof (connect_loop_creates (seq 0 MAX_CONNECTION_ATTEMPTS) st) as Hc.
  rewrite length_seq in Hc.
  unfold iteration, mbind at 1, M_bind at 1, bind at 1.
  destruct (connect_loop w key _ st) as [[c|e] st1]; [|done].
  cbn [snd] in Hc.
  assert (K : keeps no_create
    (match c with
     | ConnReturn => mret Return
     | LoopEnd None => mret Return
     | LoopEnd (Some sbx) =>
         r ← try (run_phase w cmd);
         match r with
         | Raise e => run_handler w key e
         | Ok _ =>
             downtime ← randint w downtime_min downtime_max;
             print (MsgNormalCooldown downtime);;
             sleep Normal downtime;;
             mret Continue
         end
     end)).
  { destruct c as [[sbx|]|]; try apply keeps_ret.
    keeps_step; [apply keeps_try, run_phase_no_create|].
    destruct a as [[]|e].
    - apply keeps_randint. intros d Hd. repeat keeps_step; done.
    - by apply keeps_run_handler
        with (downtime_min := downtime_min) (downtime_max := downtime_max). }
  destruct (K st1) as (evs & -> & Hp).
  rewrite count_app, (count_none is_create evs) by done. lia.
Qed.

End AttemptBound.

(** X7.  Whatever the provider answers, a supervisor makes at most ten
    connection attempts per pass through its loop: after [fuel] passes
    the provider's creation has been called at most [10 * fuel] times. *)
Theorem attempts_are_bounded (w : World) (key cmd : string)
    (downtime_min downtime_max : Z) (fuel : nat) :
  (count is_create
     (trace (run_sandbox_lifecycle w key cmd downtime_min downtime_max
               fuel initial).2)
   <= MAX_CONNECTION_ATTEMPTS * fuel)%nat.
Proof.
  assert (G : ∀ st,
    (count is_create
       (trace (run_sandbox_lifecycle w key cmd downtime_min downtime_max
                 fuel st).2)
     <= count is_create (trace st) + MAX_CONNECTION_ATTEMPTS * fuel)%nat).
  { induction fuel as [|fuel IH]; intros st; [simpl; lia|].
    rewrite lifecycle_step.
    pose proof (iteration_creates w key cmd downtime_min downtime_max st)
      as Hi.
    destruct (iteration w key cmd downtime_min downtime_max st)
      as [[[]|e] st1]; cbn [snd] in *; try lia.
    etrans; [apply IH|]. lia. }
  apply (G initial).
Qed.

(* ===================================================================== *)
(** ** The case of the error text, and the exit code of the command       *)
(* ===================================================================== *)

(** X8.  Two error texts that differ in the case of their letters only
    are classified alike: they name a terminal phrase, or the lost
    session, together, and the run-phase handler leaves the pass the
    same way for both. *)
Theorem classification_ignores_case (t1 t2 : string) :
  Text.lower t1 = Text.lower t2 →
  (names_terminal_phrase t1 ↔ names_terminal_phrase t2)
  ∧ (names_lost_session t1 ↔ names_lost_session t2)
  ∧ ∀ w key st,
      (run_handler w key (Exception t1) st).1
      = (run_handler w key (Exception t2) st).1.
Proof.
  intros H.
  assert (Ht : names_terminal_phrase t1 ↔ names_terminal_phrase t2)
    by (by rewrite <- !terminal_test, H).
  assert (Hl : names_lost_session t1 ↔ names_lost_session t2)
    by (by rewrite <- !lost_session_test, H).
  split; [done | split; [done|]]. intros w key st.
  destruct (lost_session_cases t1) as [H1|H1].
  - by rewrite !run_handler_lost by (simpl; tauto).
  - destruct (terminal_cases t1) as [H2|H2].
    + by rewrite !run_handler_terminal by (simpl; tauto).
    + by rewrite !run_handler_unexpected by (simpl; tauto).
Qed.

Lemma classification_ignores_case_witness :
  (names_terminal_phrase "TEAM BLOCKED: quota"
   ↔ names_terminal_phrase "Team Blocked: Quota")
  ∧ (run_handler calm "e2b_0123456789" (Exception "TEAM BLOCKED: quota")
       initial).1
    = (run_handler calm "e2b_0123456789" (Exception "Team Blocked: Quota")
         initial).1.
Proof.
  destruct (classification_ignores_case "TEAM BLOCKED: quota"
              "Team Blocked: Quota" eq_refl) as (Ht & _ & Hr).
  split; [exact Ht | apply Hr].
Defined.

Section AnsweredRun.

Variable w : World.
Variables (key cmd : string) (downtime_min downtime_max : Z).

(** The run phase when each of its calls is answered. *)
Lemma run_phase_exact (st : state) (id : string) (proc : process) :
  commands_run w (clock st) = inr tt →
  get_info w (1 + clock st) = inr id →
  proc_wait w (2 + clock st) = inr proc →
  sandbox_release w (3 + clock st) = None →
  run_phase w cmd st = (Ok tt, after st (answered_run cmd id proc) 4).
Proof.
  intros H1 H2 H3 H4. unfold run_phase, run_body. unfold_ops. simpl in *.
  rewrite H1. simpl. rewrite H2. simpl. rewrite H3. simpl.
  unfold answered_run, report, after.
  destruct (exit_code proc =? 0), (Text.truthy (stdout proc)),
    (Text.truthy (stderr proc)); simpl; rewrite H4;
    by rewrite <- !app_assoc.
Qed.

End AnsweredRun.

(** X9.  The exit code of the command does not decide how the pass
    ends: when the calls of the run phase are answered, whatever the
    exit code and the captured output, the supervisor reports them,
    releases the session, sleeps the normal cooldown and goes through
    the loop again.  A code other than 0 is printed, and is not treated
    as a run error. *)
Theorem exit_code_is_reported_only (w : World) (key cmd : string)
    (downtime_min downtime_max : Z) (st st1 : state) (sbx fuel : nat)
    (id : string) (proc : process) :
  downtime_min <= downtime_max →
  connect_loop w key (seq 0 MAX_CONNECTION_ATTEMPTS) st
  = (Ok (LoopEnd (Some sbx)), st1) →
  commands_run w (clock st1) = inr tt →
  get_info w (1 + clock st1) = inr id →
  proc_wait w (2 + clock st1) = inr proc →
  sandbox_release w (3 + clock st1) = None →
  let d := drawn w downtime_min downtime_max (4 + clock st1) in
  run_sandbox_lifecycle w key cmd downtime_min downtime_max (S fuel) st
  = run_sandbox_lifecycle w key cmd downtime_min downtime_max fuel
      (after st1
         (answered_run cmd id proc
          ++ [Print Stdout (MsgNormalCooldown d); Sleep Normal d]) 5)
  ∧ (exit_code proc ≠ 0 →
     Print Stdout (MsgExitedWith (exit_code proc))
     ∈ answered_run cmd id proc).
Proof.
  intros Hle Hc H1 H2 H3 H4 d. split.
  - rewrite lifecycle_step.
    rewrite (iteration_clean _ _ _ _ _ _ _ _ _ Hc
               (run_phase_exact w cmd st1 id proc H1 H2 H3 H4) Hle).
    by rewrite after_after.
  - intros Hne. unfold answered_run, report.
    destruct (exit_code proc =? 0) eqn:He; [apply Z.eqb_eq in He; lia|].
    simpl. rewrite !elem_of_cons. tauto.
Qed.

Lemma exit_code_is_reported_only_witness :
  let proc := {| exit_code := 137; stdout := ""; stderr := "Killed" |} in
  let st1 := {| trace := successful_attempt "e2b_0123456789" 0;
                clock := 1 |} in
  run_sandbox_lifecycle (exits_as proc) "e2b_0123456789" "sleep 1" 30 45 1
    initial
  = run_sandbox_lifecycle (exits_as proc) "e2b_0123456789" "sleep 1" 30 45 0
      (after st1
         (answered_run "sleep 1" "sbx" proc
          ++ [Print Stdout (MsgNormalCooldown 35); Sleep Normal 35]) 5)
  ∧ Print Stdout (MsgExitedWith 137) ∈ answered_run "sleep 1" "sbx" proc.
Proof.
  intros proc st1.
  destruct (exit_code_is_reported_only (exits_as proc) "e2b_0123456789"
              "sleep 1" 30 45 initial st1 0 0 "sbx" proc)
    as [Hr Hp]; try reflexivity.
  - lia.
  - split; [exact Hr | by apply Hp].
Defined.

(* ===================================================================== *)
(** ** What is printed of a key and of the captured output                *)
(* ===================================================================== *)

Lemma length_append (a b : string) :
  String.length (a +:+ b) = (String.length a + String.length b)%nat.
Proof. induction a as [|c a IH]; simpl; [done | by rewrite IH]. Qed.

Lemma append_empty_r (s : string) : s +:+ "" = s.
Proof.
  induction s as [|c s IH]; [done|].
  change (String c (s +:+ "") = String c s). by rewrite IH.
Qed.

Lemma substring_whole (n : nat) (s : string) :
  (String.length s <= n)%nat → String.substring 0 n s = s.
Proof.
  revert n. induction s as [|c s IH]; intros [|n] H; simpl in *;
    try done; try lia.
  by rewrite IH by lia.
Qed.

Lemma substring_head (n : nat) (s : string) :
  (n <= String.length s)%nat →
  ∃ tail,
    s = String.substring 0 n s +:+ tail
    ∧ String.length (String.substring 0 n s) = n.
Proof.
  revert n. induction s as [|c s IH]; intros [|n] H; simpl in *;
    try lia.
  - by exists "".
  - by exists (String c s).
  - destruct (IH n) as (tail & Hs & Hl); [lia|].
    exists tail. split; [|by rewrite Hl].
    change (String c s = String c (String.substring 0 n s +:+ tail)).
    by f_equal.
Qed.

Lemma substring_tail (s : string) (k m : nat) :
  (String.length s - k <= m)%nat →
  ∃ head,
    s = head +:+ String.substring k m s
    ∧ String.length head = (k `min` String.length s)%nat.
Proof.
  revert k. induction s as [|c s IH]; intros k H.
  - exists "". by destruct k, m.
  - destruct k as [|k].
    + exists "". by rewrite substring_whole by (simpl in *; lia).
    + destruct (IH k) as (head & Hs & Hl); [simpl in *; lia|].
      exists (String c head). split; [|simpl; by rewrite Hl].
      change (String c s = String c (head +:+ String.substring k m s)).
      by f_equal.
Qed.

(** [Text.clipped n s] is [s] when [s] has at most [n] characters, and
    its first [n] characters followed by three dots otherwise. *)
Lemma clipped_spec (n : nat) (s : string) :
  ((String.length s <= n)%nat → Text.clipped n s = s)
  ∧ ((n < String.length s)%nat →
     ∃ head tail,
       s = head +:+ tail
       ∧ String.length head = n
       ∧ Text.clipped n s = head +:+ "...").
Proof.
  unfold Text.clipped. split; intros H.
  - rewrite substring_whole by done.
    destruct (Nat.ltb_spec n (String.length s)); [lia|].
    apply append_empty_r.
  - destruct (substring_head n s) as (tail & Hs & Hl); [lia|].
    destruct (Nat.ltb_spec n (String.length s)); [|lia].
    by eexists _, tail.
Qed.

(** [Text.last_chars n key] is an end piece of [key], of [n] characters
    or of the whole of a shorter [key]. *)
Lemma key_tail_spec (n : nat) (key : string) :
  ∃ head,
    key = head +:+ Text.last_chars n key
    ∧ String.length (Text.last_chars n key)
      = (n `min` String.length key)%nat.
Proof.
  unfold Text.last_chars.
  destruct (substring_tail key (String.length key - n) n)
    as (head & Hs & Hl); [lia|].
  exists head. split; [done|].
  apply (f_equal String.length) in Hs. rewrite length_append in Hs. lia.
Qed.

(* ===================================================================== *)
(** ** More about the credential source and the launch                    *)
(* ===================================================================== *)

Lemma lstrip_nonempty (v : string) :
  Text.lstrip v ≠ ""
  ↔ ∃ pre c post, v = pre +:+ String c post ∧ Text.isspace c = false.
Proof.
  induction v as [|a v IH].
  - split; [done|]. by intros ([|??] & c & post & H & _).
  - cbn [Text.lstrip]. destruct (Text.isspace a) eqn:Ha.
    + rewrite IH. split.
      * intros (pre & c & post & -> & Hc). by exists (String a pre), c, post.
      * intros ([|a' pre] & c & post & H & Hc).
        -- injection H as -> _. congruence.
        -- injection H as _ H. by exists pre, c, post.
    + split; [|done]. intros _. by exists "", a, v.
Qed.

Lemma lstrip_head (v : string) :
  Text.lstrip v = ""
  ∨ ∃ c r, Text.lstrip v = String c r ∧ Text.isspace c = false.
Proof.
  induction v as [|a v IH]; [by left|].
  cbn [Text.lstrip]. destruct (Text.isspace a) eqn:Ha; [done|].
  right. by exists a, v.
Qed.

Lemma rstrip_keeps_head (c : ascii) (r : string) :
  Text.isspace c = false → Text.rstrip (String c r) ≠ "".
Proof.
  intros Hc. cbn [Text.rstrip]. rewrite Hc.
  by destruct (Text.rstrip r).
Qed.

(** A value is not blank exactly when one of its characters is not
    white space. *)
Lemma not_blank_iff (v : string) :
  not_blank v
  ↔ ∃ pre c post, v = pre +:+ String c post ∧ Text.isspace c = false.
Proof.
  rewrite <- lstrip_nonempty. unfold not_blank, Text.strip.
  destruct (lstrip_head v) as [->|(c & r & -> & Hc)]; [done|].
  split; [done|]. intros _. by apply rstrip_keeps_head.
Qed.

(** X13.  The process finds no credential exactly when no [--key] is
    given and every environment variable that carries the prefix has a
    blank value. *)
Theorem no_credentials_iff (environ : list (string * string)) (a : args) :
  credentials environ a = []
  ↔ default [] (key a) = []
    ∧ ∀ name v,
        (name, v) ∈ environ → String.prefix ENV_PREFIX name = true →
        ¬ not_blank v.
Proof.
  rewrite credentials_empty. split.
  - intros [He Hf]. split; [done|]. intros name v Hin Hp Hv.
    assert (v ∈ env_keys environ ENV_PREFIX) as Hk
      by (apply env_keys_elem; by exists name).
    rewrite He in Hk. by apply elem_of_nil in Hk.
  - intros [Hf He]. split; [|done].
    destruct (env_keys environ ENV_PREFIX) as [|v l] eqn:Hk; [done|].
    assert (v ∈ env_keys environ ENV_PREFIX) as Hv
      by (rewrite Hk; apply list_elem_of_here).
    apply env_keys_elem in Hv as (name & Hin & Hp & Hv).
    by destruct (He name v).
Qed.

Lemma first_occurrences_NoDup_id (l : list string) :
  NoDup l → first_occurrences l = l.
Proof.
  induction 1 as [|x l Hx Hl IH]; [done|].
  cbn [first_occurrences]. rewrite IH. f_equal.
  clear IH Hl. induction l as [|y l IH]; [done|].
  rewrite filter_cons_True by set_solver.
  f_equal. apply IH. set_solver.
Qed.

(** X14.  Merging drops and reorders nothing when the values are all
    different, and merging what has been merged changes nothing. *)
Theorem credentials_stable (environ : list (string * string)) (a : args) :
  (NoDup (env_keys environ ENV_PREFIX ++ default [] (key a)) →
   credentials environ a
   = env_keys environ ENV_PREFIX ++ default [] (key a))
  ∧ credentials []
      {| key := Some (credentials environ a); cmd := cmd a;
         downtime_min := downtime_min a; downtime_max := downtime_max a |}
    = credentials environ a.
Proof.
  split.
  - intros H. by rewrite credentials_spec, first_occurrences_NoDup_id.
  - rewrite (credentials_spec []). cbn [env_keys List.filter map key default].
    cbn [app]. apply first_occurrences_NoDup_id.
    rewrite credentials_spec. apply first_occurrences_NoDup.
Qed.

Lemma credentials_stable_witness :
  credentials [("E2B_KEY_1", "key-a"); ("E2B_KEY_2", "key-b")]
    {| key := Some ["key-c"]; cmd := "sleep 1";
       downtime_min := 30; downtime_max := 45 |}
  = ["key-a"; "key-b"; "key-c"].
Proof.
  apply (proj1 (credentials_stable
                  [("E2B_KEY_1", "key-a"); ("E2B_KEY_2", "key-b")]
                  {| key := Some ["key-c"]; cmd := "sleep 1";
                     downtime_min := 30; downtime_max := 45 |})).
  apply (bool_decide_unpack _). vm_compute. exact I.
Defined.

(** A launch loop that reaches its [break] has launched all that was
    left of [keys]. *)
Lemma launch_loop_result (w : World) (a : args) (keys : list string)
    (fuel i : nat) (tasks ts : list task) (st st' : state) :
  launch_loop w fuel a keys i tasks st = (Ok (Some ts), st') →
  ts = tasks ++ tasks_from a i (drop i keys).
Proof.
  revert i tasks st. induction fuel as [|fuel IH]; intros i tasks st H.
  - discriminate.
  - cbn [launch_loop] in H. destruct (length keys <=? i)%nat eqn:Hi.
    + apply Nat.leb_le in Hi. injection H as <- _.
      rewrite drop_ge by done. by rewrite app_nil_r.
    + destruct (keys !! i) as [k|] eqn:Hk; [|discriminate].
      rewrite (drop_S _ _ _ Hk). cbn [tasks_from].
      unfold mbind at 1 2, M_bind at 1 2, bind at 1 2 in H.
      unfold emit at 1 in H.
      destruct (Z.of_nat i <? Z.of_nat (length keys) - 1).
      * unfold mbind at 1, M_bind at 1, bind at 1 in H.
        rewrite randint_run in H by done.
        unfold_ops. cbn [trace clock after] in H.
        apply IH in H as ->. by rewrite <- app_assoc.
      * unfold mret at 1, M_ret at 1, ret at 1 in H.
        apply IH in H as ->. by rewrite <- app_assoc.
Qed.

(** X15.  Whenever [main_async] gets as far as [asyncio.gather], the
    bounds are in order, there is at least one credential, and what it
    waits for is one task per credential, in the order of the merged
    list, each with the command and the bounds of the command line. *)
Theorem gathered_tasks (w : World) (fuel : nat) (a : args)
    (environ : list (string * string)) (st st' : state)
    (tasks : list task) :
  main_async w fuel a environ st = (Ok (Some tasks), st') →
  downtime_min a <= downtime_max a
  ∧ credentials environ a ≠ []
  ∧ tasks = tasks_from a 0 (credentials environ a)
  ∧ map task_key tasks = credentials environ a
  ∧ map task_idx tasks = seq 0 (length (credentials environ a)).
Proof.
  intros H.
  destruct (Z_le_gt_dec (downtime_min a) (downtime_max a)) as [Hle|Hgt];
    [|by rewrite main_async_bad_range in H].
  rewrite main_async_good_range in H by done.
  unfold mbind at 1, M_bind at 1, bind at 1 in H.
  destruct (bool_decide (credentials environ a = [])) eqn:Hk;
    [discriminate|].
  apply bool_decide_eq_false in Hk.
  unfold mret at 1, M_ret at 1, ret at 1 in H.
  unfold mbind at 1, M_bind at 1, bind at 1 in H.
  unfold print at 1, emit at 1 in H.
  unfold mbind at 1, M_bind at 1, bind at 1 in H.
  destruct (launch_loop _ _ _ _ _ _ _) as [[[ts|]|e] st2] eqn:Hl;
    try discriminate.
  apply launch_loop_result in Hl. rewrite drop_0 in Hl. simpl in Hl.
  unfold_ops. simpl in H. injection H as <- _. subst ts.
  destruct (tasks_from_keys a 0 (credentials environ a)) as [Hkeys Hidx].
  by repeat split.
Qed.

Lemma gathered_tasks_witness :
  30 <= 45
  ∧ map task_key
      [ {| task_key := "key-a"; task_cmd := "sleep 1"; task_idx := 0;
           task_downtime_min := 30; task_downtime_max := 45 |};
        {| task_key := "key-b"; task_cmd := "sleep 1"; task_idx := 1;
           task_downtime_min := 30; task_downtime_max := 45 |} ]
    = credentials [("E2B_KEY_1", "key-a")]
        {| key := Some ["key-b"]; cmd := "sleep 1";
           downtime_min := 30; downtime_max := 45 |}.
Proof.
  destruct (gathered_tasks calm 3
              {| key := Some ["key-b"]; cmd := "sleep 1";
                 downtime_min := 30; downtime_max := 45 |}
              [("E2B_KEY_1", "key-a")] initial
              {| trace :=
                   [ ReadEnviron "E2B_KEY_"; Print Stdout (MsgFound 2);
                     CreateTask {| task_key := "key-a"; task_cmd := "sleep 1";
                                   task_idx := 0; task_downtime_min := 30;
                                   task_downtime_max := 45 |};
                     Print Stdout (MsgGracePeriod 30); Sleep Grace 30;
                     CreateTask {| task_key := "key-b"; task_cmd := "sleep 1";
                                   task_idx := 1; task_downtime_min := 30;
                                   task_downtime_max := 45 |};
                     Gather 2 ];
                 clock := 1 |}
              [ {| task_key := "key-a"; task_cmd := "sleep 1"; task_idx := 0;
                   task_downtime_min := 30; task_downtime_max := 45 |};
                {| task_key := "key-b"; task_cmd := "sleep 1"; task_idx := 1;
                   task_downtime_min := 30; task_downtime_max := 45 |} ])
    as (Hle & _ & _ & Hk & _).
  - reflexivity.
  - split; [exact Hle | exact Hk].
Defined.

(** X16.  With bounds in order, a credential at least and fuel for the
    launches, [main_async] reads the environment, announces the number
    of keys, launches one task per key with a grace period between two
    launches, and then hands to [asyncio.gather] exactly the tasks it
    launched, as many as there are keys. *)
Theorem launch_and_gather (w : World) (fuel : nat) (a : args)
    (environ : list (string * string)) :
  downtime_min a <= downtime_max a →
  credentials environ a ≠ [] →
  (length (credentials environ a) < fuel)%nat →
  ∃ tr,
    main_async w fuel a environ initial
    = (Ok (Some (tasks_from a 0 (credentials environ a))),
       {| trace := tr; clock := length (credentials environ a) - 1 |})
    ∧ tr = [ ReadEnviron ENV_PREFIX;
             Print Stdout (MsgFound (length (credentials environ a))) ]
           ++ staggered w a 0 0 (credentials environ a)
           ++ [Gather (length (credentials environ a))]
    ∧ count is_task tr = length (credentials environ a)
    ∧ length (tasks_from a 0 (credentials environ a))
      = length (credentials environ a).
Proof.
  intros Hle Hne Hf. rewrite main_async_launches by done.
  eexists. split; [reflexivity|]. split; [reflexivity|].
  split; [|apply tasks_from_length].
  rewrite !count_app, staggered_tasks. unfold count. simpl. lia.
Qed.

Lemma launch_and_gather_witness :
  ∃ tr,
    main_async calm 3
      {| key := Some ["key-b"]; cmd := "sleep 1";
         downtime_min := 30; downtime_max := 45 |}
      [("E2B_KEY_1", "key-a")] initial
    = (Ok (Some (tasks_from
                   {| key := Some ["key-b"]; cmd := "sleep 1";
                      downtime_min := 30; downtime_max := 45 |}
                   0 ["key-a"; "key-b"])),
       {| trace := tr; clock := 1 |})
    ∧ count is_task tr = 2%nat.
Proof.
  destruct (launch_and_gather calm 3
              {| key := Some ["key-b"]; cmd := "sleep 1";
                 downtime_min := 30; downtime_max := 45 |}
              [("E2B_KEY_1", "key-a")])
    as (tr & Hm & _ & Ht & _).
  - simpl. lia.
  - discriminate.
  - apply Nat.ltb_lt. reflexivity.
  - exists tr. split; [exact Hm | exact Ht].
Defined.

(* ===================================================================== *)
(** ** Sessions are released, sleeps are announced                        *)
(* ===================================================================== *)

Lemma announced_weaken (prev : option Z) (evs : list event) :
  announced None evs → announced prev evs.
Proof. destruct evs as [|[] rest]; simpl; try done. by intros [? ?]. Qed.

Lemma announced_app (prev : option Z) (a b : list event) :
  announced prev a → announced None b → announced prev (a ++ b).
Proof.
  revert prev. induction a as [|e a IH]; intros prev Ha Hb.
  - by apply announced_weaken.
  - destruct Ha as [He Ha]. split; [done|]. by apply IH.
Qed.

Lemma announced_no_sleep (evs : list event) :
  Forall (λ e, is_sleep e = false) evs → ∀ prev, announced prev evs.
Proof.
  induction 1 as [|e evs He _ IH]; intros prev; [done|].
  split; [by destruct e | apply IH].
Qed.

Section Invariants.

Variable w : World.
Variables (key cmd : string) (downtime_min downtime_max : Z).

(** What a pass adds to the trace: as many releases as started
    sessions, and no sleep without its announcement. *)
Let balanced (evs : list event) : Prop :=
  count is_started evs = count is_release evs ∧ announced None evs.

Let adds_balanced {A} (m : M A) : Prop :=
  ∀ st, ∃ evs, trace (m st).2 = trace st ++ evs ∧ balanced evs.

Lemma balanced_app (a b : list event) :
  balanced a → balanced b → balanced (a ++ b).
Proof.
  intros [Ha1 Ha2] [Hb1 Hb2]. split.
  - rewrite !count_app. lia.
  - by apply announced_app.
Qed.

Lemma after_adds (st : state) (evs : list event) (n : nat) :
  trace (after st evs n) = trace st ++ evs.
Proof. reflexivity. Qed.

(** The connection loop adds a started session exactly when it is left
    with one. *)
Lemma connect_loop_adds (attempts : list nat) (st : state) :
  ∃ c st' evs,
    connect_loop w key attempts st = (Ok c, st')
    ∧ trace st' = trace st ++ evs
    ∧ announced None evs
    ∧ count is_release evs = 0%nat
    ∧ count is_started evs
      = match c with LoopEnd (Some _) => 1%nat | _ => 0%nat end.
Proof.
  revert st. induction attempts as [|attempt rest IH]; intros st.
  - exists (LoopEnd None), st, []. by rewrite app_nil_r.
  - destruct (sandbox_create w key (clock st)) as [text|sbx] eqn:Hc.
    + rewrite (connect_loop_raise _ _ _ _ _ _ Hc).
      destruct (terminal_cases text) as [Ht|Ht].
      * rewrite connect_handler_terminal, after_after by done.
        eexists _, _, _. split; [reflexivity|].
        split; [apply after_adds|]. by repeat split.
      * destruct (attempt <? MAX_CONNECTION_ATTEMPTS - 1)%nat eqn:Hlt.
        -- apply Nat.ltb_lt in Hlt.
           rewrite connect_handler_retry, after_after by done.
           edestruct IH as (c & st' & evs & Hl & Htr & Ha & Hr & Hs).
           rewrite Hl. eexists c, st', _. split; [reflexivity|].
           split; [rewrite Htr, after_adds; by rewrite <- app_assoc|].
           split; [apply announced_app; [by repeat split | done]|].
           rewrite !count_app, Hr, Hs. by split.
        -- apply Nat.ltb_ge in Hlt.
           rewrite connect_handler_give_up, after_after by done.
           eexists _, _, _. split; [reflexivity|].
           split; [apply after_adds|]. by repeat split.
    + rewrite (connect_loop_ok _ _ _ _ _ _ Hc).
      eexists _, _, _. split; [reflexivity|].
      split; [apply after_adds|]. by repeat split.
Qed.

(** The run phase releases its session once, however it ends. *)
Lemma run_phase_adds (st : state) :
  ∃ evs,
    trace (run_phase w cmd st).2 = trace st ++ evs
    ∧ announced None evs
    ∧ count is_release evs = 1%nat
    ∧ count is_started evs = 0%nat.
Proof.
  assert (Hb : keeps (λ e, is_sleep e = false ∧ is_release e = false
                           ∧ is_started e = false) (run_body w cmd)).
  { unfold run_body.
    repeat first [ keeps_step
                 | match goal with |- keeps _ (if ?b then _ else _) =>
                     destruct b end ];
      done. }
  destruct (Hb st) as (evs & Ht & Hp).
  unfold run_phase. destruct (run_body w cmd st) as [r st1].
  unfold_ops. simpl in *.
  exists (evs ++ [CallRelease]). split.
  - destruct (sandbox_release w (clock st1)); simpl;
      by rewrite Ht, app_assoc.
  - rewrite !count_app.
    rewrite (count_none is_release evs), (count_none is_started evs)
      by (eapply Forall_impl; [exact Hp | by intros e (? & ? & ?)]).
    split; [|done].
    apply announced_app; [|done]. apply announced_no_sleep.
    eapply Forall_impl; [exact Hp | by intros e (? & ? & ?)].
Qed.

Lemma run_handler_adds (e : exn) : adds_balanced (run_handler w key e).
Proof.
  intros st. destruct (lost_session_cases (str e)) as [Hl|Hl].
  - rewrite run_handler_lost by done.
    eexists. split; [apply after_adds|]. by repeat split.
  - destruct (terminal_cases (str e)) as [Ht|Ht].
    + rewrite run_handler_terminal by done.
      eexists. split; [apply after_adds|]. by repeat split.
    + rewrite run_handler_unexpected by done.
      eexists. split; [apply after_adds|]. by repeat split.
Qed.

Lemma iteration_adds :
  adds_balanced (iteration w key cmd downtime_min downtime_max).
Proof.
  intros st.
  destruct (connect_loop_adds (seq 0 MAX_CONNECTION_ATTEMPTS) st)
    as (c & st1 & evs1 & Hc & Ht1 & Ha1 & Hr1 & Hs1).
  destruct c as [[sbx|]|].
  - destruct (run_phase_adds st1) as (evs2 & Ht2 & Ha2 & Hr2 & Hs2).
    assert (B12 : balanced (evs1 ++ evs2)).
    { split; [rewrite !count_app; lia | by apply announced_app]. }
    destruct (run_phase w cmd st1) as [[[]|e] st2] eqn:Hr; cbn [snd] in Ht2.
    + destruct (Z_le_gt_dec downtime_min downtime_max) as [Hle|Hgt].
      * rewrite (iteration_clean _ _ _ _ _ _ _ _ _ Hc Hr Hle).
        eexists. split.
        -- cbn [snd]. rewrite after_adds, Ht2, Ht1.
           by rewrite <- !app_assoc.
        -- rewrite app_assoc. apply balanced_app; [done|]. by repeat split.
      * rewrite (iteration_crash _ _ _ _ _ _ _ _ _ Hc Hr) by lia.
        exists (evs1 ++ evs2). split; [|done].
        cbn [snd]. by rewrite Ht2, Ht1, <- app_assoc.
    + destruct (run_phase_raises _ _ _ _ _ Hr) as [text ->].
      rewrite (iteration_raise _ _ _ _ _ _ _ _ _ _ Hc Hr).
      destruct (run_handler_adds (Exception text) st2) as (evs3 & Ht3 & B3).
      exists ((evs1 ++ evs2) ++ evs3). split.
      * by rewrite Ht3, Ht2, Ht1, <- !app_assoc.
      * by apply balanced_app.
  - unfold iteration, mbind, M_bind, bind. rewrite Hc.
    exists evs1. split; [done|]. split; [lia | done].
  - rewrite (iteration_conn_return _ _ _ _ _ _ _ Hc).
    exists evs1. split; [done|]. split; [lia | done].
Qed.

Lemma lifecycle_adds (fuel : nat) :
  adds_balanced
    (run_sandbox_lifecycle w key cmd downtime_min downtime_max fuel).
Proof.
  induction fuel as [|fuel IH]; intros st.
  - exists []. split; [by rewrite app_nil_r | done].
  - rewrite lifecycle_step.
    destruct (iteration_adds st) as (evs1 & Ht1 & B1).
    destruct (iteration w key cmd downtime_min downtime_max st)
      as [[[]|e] st1]; cbn [snd] in Ht1; try by exists evs1.
    destruct (IH st1) as (evs2 & Ht2 & B2).
    exists (evs1 ++ evs2). split.
    + by rewrite Ht2, Ht1, <- app_assoc.
    + by apply balanced_app.
Qed.

End Invariants.

(** X17.  A supervisor leaks no session: at the end of every pass, and
    when the coroutine returns or dies, each session that was started
    has been released, whether its run phase raised or not. *)
Theorem sessions_are_released (w : World) (key cmd : string)
    (downtime_min downtime_max : Z) (fuel : nat) :
  count is_release
    (trace (run_sandbox_lifecycle w key cmd downtime_min downtime_max
              fuel initial).2)
  = count is_started
      (trace (run_sandbox_lifecycle w key cmd downtime_min downtime_max
                fuel initial).2).
Proof.
  destruct (lifecycle_adds w key cmd downtime_min downtime_max fuel initial)
    as (evs & -> & Hb & _).
  by rewrite !count_app, Hb.
Qed.

(** X18.  A supervisor never sleeps unannounced: every sleep in its
    trace comes right after a printed line that gives the duration
    slept. *)
Theorem sleeps_are_announced (w : World) (key cmd : string)
    (downtime_min downtime_max : Z) (fuel : nat) :
  announced None
    (trace (run_sandbox_lifecycle w key cmd downtime_min downtime_max
              fuel initial).2).
Proof.
  destruct (lifecycle_adds w key cmd downtime_min downtime_max fuel initial)
    as (evs & -> & _ & Ha).
  exact Ha.
Qed.

(* ===================================================================== *)
(** ** What the program keeps and shows                                   *)
(* ===================================================================== *)

(** X12.  [env_keys] returns a value exactly when some variable of the
    environment whose name starts with the prefix holds it and one of
    its characters is not white space. *)
Theorem env_keys_keeps_visible (environ : list (string * string))
    (prefix v : string) :
  v ∈ env_keys environ prefix
  ↔ ∃ name,
      (name, v) ∈ environ
      ∧ String.prefix prefix name = true
      ∧ ∃ pre c post, v = pre +:+ String c post ∧ Text.isspace c = false.
Proof.
  rewrite env_keys_elem. split.
  - intros (name & Hin & Hp & Hv). exists name.
    split; [done | split; [done|]]. by apply not_blank_iff.
  - intros (name & Hin & Hp & Hv). exists name.
    split; [done | split; [done|]]. by apply not_blank_iff.
Qed.

(** The lines of an answered run phase that show captured output. *)
Lemma shown_stdout (cmd id : string) (proc : process) (out : stream)
    (x : string) :
  Print out (MsgStdout x) ∈ answered_run cmd id proc
  ↔ out = Stdout ∧ stdout proc ≠ "" ∧ x = Text.clipped 500 (stdout proc).
Proof.
  unfold answered_run, report.
  rewrite !elem_of_app, !elem_of_cons, elem_of_nil.
  destruct (exit_code proc =? 0), (stdout proc) as [|c1 s1],
    (stderr proc) as [|c2 s2]; cbn [Text.truthy];
    rewrite ?elem_of_cons, ?elem_of_nil;
    (split; [intros H; decompose [or] H; simplify_eq; done
            | intros (-> & ? & ->); try done; tauto]).
Qed.

Lemma shown_stderr (cmd id : string) (proc : process) (out : stream)
    (x : string) :
  Print out (MsgStderr x) ∈ answered_run cmd id proc
  ↔ out = Stdout ∧ stderr proc ≠ "" ∧ x = Text.clipped 500 (stderr proc).
Proof.
  unfold answered_run, report.
  rewrite !elem_of_app, !elem_of_cons, elem_of_nil.
  destruct (exit_code proc =? 0), (stdout proc) as [|c1 s1],
    (stderr proc) as [|c2 s2]; cbn [Text.truthy];
    rewrite ?elem_of_cons, ?elem_of_nil;
    (split; [intros H; decompose [or] H; simplify_eq; done
            | intros (-> & ? & ->); try done; tauto]).
Qed.

(** X10.  What the run phase prints of the captured output is clipped at
    500 characters: when the calls of the run phase are answered, a
    stream that is not empty is printed, whole when it has at most 500
    characters and as its first 500 characters followed by three dots
    otherwise, and nothing else is printed of it. *)
Theorem output_is_clipped (w : World) (cmd : string) (st : state)
    (id : string) (proc : process) :
  commands_run w (clock st) = inr tt →
  get_info w (1 + clock st) = inr id →
  proc_wait w (2 + clock st) = inr proc →
  sandbox_release w (3 + clock st) = None →
  (∀ out x,
     Print out (MsgStdout x) ∈ trace (run_phase w cmd st).2 →
     Print out (MsgStdout x) ∈ trace st
     ∨ (stdout proc ≠ "" ∧ clipped_at 500 (stdout proc) x))
  ∧ (∀ out x,
       Print out (MsgStderr x) ∈ trace (run_phase w cmd st).2 →
       Print out (MsgStderr x) ∈ trace st
       ∨ (stderr proc ≠ "" ∧ clipped_at 500 (stderr proc) x))
  ∧ (stdout proc ≠ "" →
     ∃ x, Print Stdout (MsgStdout x) ∈ trace (run_phase w cmd st).2
          ∧ clipped_at 500 (stdout proc) x)
  ∧ (stderr proc ≠ "" →
     ∃ x, Print Stdout (MsgStderr x) ∈ trace (run_phase w cmd st).2
          ∧ clipped_at 500 (stderr proc) x).
Proof.
  intros H1 H2 H3 H4.
  rewrite (run_phase_exact w cmd st id proc H1 H2 H3 H4).
  cbn [snd]. unfold after. cbn [trace].
  split; [|split; [|split]].
  - intros out x [?|Hin]%elem_of_app; [by left|]. right.
    apply shown_stdout in Hin as (_ & ? & ->).
    split; [done | apply clipped_spec].
  - intros out x [?|Hin]%elem_of_app; [by left|]. right.
    apply shown_stderr in Hin as (_ & ? & ->).
    split; [done | apply clipped_spec].
  - intros Hne. exists (Text.clipped 500 (stdout proc)).
    split; [|apply clipped_spec]. apply elem_of_app. right.
    by apply shown_stdout.
  - intros Hne. exists (Text.clipped 500 (stderr proc)).
    split; [|apply clipped_spec]. apply elem_of_app. right.
    by apply shown_stderr.
Qed.

Lemma output_is_clipped_witness :
  let proc := {| exit_code := 1; stdout := "";
                 stderr := "sh: 1: ./node: not found" |} in
  ∃ x,
    Print Stdout (MsgStderr x)
    ∈ trace (run_phase (exits_as proc) "./node app.js" initial).2
    ∧ clipped_at 500 "sh: 1: ./node: not found" x.
Proof.
  intros proc.
  refine (proj2 (proj2 (proj2
            (output_is_clipped (exits_as proc) "./node app.js" initial
               "sbx" proc eq_refl eq_refl eq_refl eq_refl))) _).
  discriminate.
Defined.

Section KeyShown.

Variable w : World.
Variables (key cmd : string) (downtime_min downtime_max : Z).

(** A line that shows a piece of the key shows [key[-6:]]. *)
Let shows_tail (e : event) : Prop :=
  ∀ t, shown_key e = Some t → t = Text.last_chars 6 key.

Ltac shows_tail_step :=
  first [ apply keeps_randint; intros ? ?
        | keeps_step
        | match goal with |- keeps _ (if ?b then _ else _) =>
            destruct b end ].

Ltac shows_tail_event :=
  let t := fresh "t" in
  let Ht := fresh "Ht" in
  intros t Ht; simpl in Ht; by simplify_eq.

Lemma shows_tail_connect_handler (attempt : nat) (e : exn)
    (retry : M connect_exit) :
  keeps shows_tail retry →
  keeps shows_tail (connect_handler w key attempt e retry).
Proof.
  intros Hr. unfold connect_handler. cbv zeta.
  repeat shows_tail_step; first [exact Hr | shows_tail_event].
Qed.

Lemma shows_tail_connect_loop (attempts : list nat) :
  keeps shows_tail (connect_loop w key attempts).
Proof.
  induction attempts as [|attempt rest IH]; cbn [connect_loop].
  - apply keeps_ret.
  - keeps_step.
    + repeat keeps_step; shows_tail_event.
    + destruct a as [sbx|e]; [apply keeps_ret|].
      by apply shows_tail_connect_handler.
Qed.

Lemma shows_tail_run_phase : keeps shows_tail (run_phase w cmd).
Proof.
  assert (Hb : keeps shows_tail (run_body w cmd)).
  { unfold run_body.
    repeat shows_tail_step; shows_tail_event. }
  intros st. destruct (Hb st) as (evs & Ht & Hp).
  unfold run_phase. destruct (run_body w cmd st) as [r st1].
  unfold_ops. simpl in *.
  exists (evs ++ [CallRelease]). split.
  - destruct (sandbox_release w (clock st1)); simpl;
      by rewrite Ht, app_assoc.
  - apply Forall_app. split; [done|]. constructor; [|done].
    shows_tail_event.
Qed.

Lemma shows_tail_run_handler (e : exn) :
  keeps shows_tail (run_handler w key e).
Proof.
  unfold run_handler. cbv zeta.
  repeat shows_tail_step; shows_tail_event.
Qed.

Lemma shows_tail_iteration :
  keeps shows_tail (iteration w key cmd downtime_min downtime_max).
Proof.
  unfold iteration. keeps_step; [apply shows_tail_connect_loop|].
  destruct a as [[sbx|]|]; try apply keeps_ret.
  keeps_step; [apply keeps_try, shows_tail_run_phase|].
  destruct a as [[]|e]; [|apply shows_tail_run_handler].
  repeat shows_tail_step; shows_tail_event.
Qed.

Lemma shows_tail_lifecycle (fuel : nat) :
  keeps shows_tail
    (run_sandbox_lifecycle w key cmd downtime_min downtime_max fuel).
Proof.
  induction fuel as [|fuel IH]; cbn [run_sandbox_lifecycle].
  - apply keeps_ret.
  - keeps_step; [apply shows_tail_iteration|].
    destruct a; [done | apply keeps_ret | apply keeps_ret].
Qed.

End KeyShown.

(** X11.  The lines of a supervisor show the end of its key only: in
    every line that shows a piece of the key (an attempt, a blocked key,
    a key given up) the piece is an end piece of the key, of six
    characters or of the whole of a shorter key; and a supervisor that
    runs at all begins with such a line, for its first attempt. *)
Theorem key_tail_shown (w : World) (key cmd : string)
    (downtime_min downtime_max : Z) (fuel : nat) :
  Forall (λ e, ∀ t, shown_key e = Some t →
                 ∃ head,
                   key = head +:+ t
                   ∧ String.length t = (6 `min` String.length key)%nat)
    (trace (run_sandbox_lifecycle w key cmd downtime_min downtime_max
              fuel initial).2)
  ∧ ∃ t more,
      trace (run_sandbox_lifecycle w key cmd downtime_min downtime_max
               (S fuel) initial).2
      = Print Stdout (MsgAttempting t 1 MAX_CONNECTION_ATTEMPTS) :: more.
Proof.
  split.
  - destruct (shows_tail_lifecycle w key cmd downtime_min downtime_max fuel
                initial) as (evs & -> & Hp).
    cbn [trace initial app]. eapply Forall_impl; [exact Hp|].
    intros e He t Ht. rewrite (He t Ht). apply key_tail_spec.
  - destruct (lifecycle_starts_connecting w key cmd downtime_min
                downtime_max fuel initial) as (more & ->).
    cbn [trace initial app]. by eexists _, _.
Qed.
